(** * pymzn.mzn.minizinc: the MiniZinc pipeline and its solution stream scan

    A shallow embedding of [src/pymzn/mzn/minizinc.py]: the functions
    [minizinc], [mzn2fzn] and [solns2out] and the three outcome error
    classes.  Python text is a list of Unicode code points; the
    filesystem, the trace of external invocations and the log records form
    an explicit world threaded through a state-and-exception monad. *)

From Stdlib Require Import String Ascii NArith ZArith List Bool Lia.
From stdpp Require Import base decidable countable gmap list.
Import ListNotations.

Local Open Scope list_scope.
Set Warnings "-clear-no-such-hyp".

(** ** Python text *)

(** A Python [str] is a sequence of code points. *)
Definition char : Type := N.
Definition str : Type := list char.

(** Literals of the source are written as Rocq strings and read as code
    points. *)
Definition lit (s : string) : str :=
  List.map N_of_ascii (list_ascii_of_string s).

Definition NL : char := 10%N.

Definition str_eqb (a b : str) : bool := bool_decide (a = b).

(** [str.isspace] on one code point: the ASCII table of CPython
    ([_Py_ascii_whitespace]) and the Unicode whitespace code points
    ([_PyUnicode_IsWhitespace]). *)
Definition is_space (c : char) : bool :=
  ((9 <=? c) && (c <=? 13) || (28 <=? c) && (c <=? 32)
   || (c =? 133) || (c =? 160) || (c =? 5760)
   || (8192 <=? c) && (c <=? 8202)
   || (c =? 8232) || (c =? 8233) || (c =? 8239) || (c =? 8287)
   || (c =? 12288))%N.

Fixpoint lstrip (s : str) : str :=
  match s with
  | c :: s' => if is_space c then lstrip s' else s
  | [] => []
  end.

Definition rstrip (s : str) : str := rev (lstrip (rev s)).

(** [s.strip()] *)
Definition strip (s : str) : str := rstrip (lstrip s).

(** [s.split(sep)] for a one-character separator: the pieces between the
    occurrences of [sep], empty pieces kept; the empty text gives one
    empty piece. *)
Fixpoint split (sep : char) (s : str) : list str :=
  match s with
  | [] => [[]]
  | c :: s' =>
      if N.eqb c sep then [] :: split sep s'
      else match split sep s' with
           | piece :: pieces => (c :: piece) :: pieces
           | [] => [[c]]
           end
  end.

(** [sep.join(pieces)] *)
Fixpoint join (sep : str) (pieces : list str) : str :=
  match pieces with
  | [] => []
  | [p] => p
  | p :: ps => p ++ sep ++ join sep ps
  end.

(** Truth value of a text: the empty text is false. *)
Definition truthy (s : str) : bool :=
  match s with [] => false | _ => true end.

(** Truth value of an optional text: [None] and the empty text are
    false. *)
Definition truthy_opt (o : option str) : bool :=
  match o with Some s => truthy s | None => false end.

(** ** Exceptions *)

(** The exception classes the module raises, catches or inherits from.
    [UserException] stands for whatever class a caller-supplied function
    raises. *)
Inductive pyclass : Type :=
  | BaseException
  | Exception
  | RuntimeError
  | TypeError
  | OSError
  | FileNotFoundError
  | SubprocessError
  | CalledProcessError
  | MiniZincUnsatisfiableError
  | MiniZincUnknownError
  | MiniZincUnboundedError
  | UserException (tag : N).

#[global] Instance pyclass_eq_dec : EqDecision pyclass.
Proof. solve_decision. Defined.

(** The class statements: [class MiniZincUnsatisfiableError(RuntimeError)]
    and its two siblings, over the builtin hierarchy. *)
Definition bases (c : pyclass) : list pyclass :=
  match c with
  | BaseException => []
  | Exception => [BaseException]
  | RuntimeError => [Exception]
  | TypeError => [Exception]
  | OSError => [Exception]
  | FileNotFoundError => [OSError]
  | SubprocessError => [Exception]
  | CalledProcessError => [SubprocessError]
  | MiniZincUnsatisfiableError => [RuntimeError]
  | MiniZincUnknownError => [RuntimeError]
  | MiniZincUnboundedError => [RuntimeError]
  | UserException _ => [Exception]
  end.

Fixpoint ancestors (depth : nat) (c : pyclass) : list pyclass :=
  c :: match depth with
       | O => []
       | S d => flat_map (ancestors d) (bases c)
       end.

Definition issubclass (c d : pyclass) : bool :=
  bool_decide (d ∈ ancestors 4 c).

(** An exception object: its class, the arguments [BaseException.__init__]
    received, and the [stderr] attribute a [CalledProcessError] carries. *)
Record exn : Type := mk_exn {
  exn_class : pyclass;
  exn_args : list str;
  exn_stderr : option str
}.

#[global] Instance exn_eq_dec : EqDecision exn.
Proof. solve_decision. Defined.

Definition isinstance (e : exn) (c : pyclass) : bool :=
  issubclass (exn_class e) c.

(** [RuntimeError(msg)] *)
Definition new_RuntimeError (msg : str) : exn :=
  mk_exn RuntimeError [msg] None.

(** [MiniZincUnsatisfiableError()]: [__init__] takes no argument and hands
    the fixed message to [super().__init__]. *)
Definition new_MiniZincUnsatisfiableError : exn :=
  mk_exn MiniZincUnsatisfiableError [lit "The problem is unsatisfiable."] None.

(** [MiniZincUnknownError()] *)
Definition new_MiniZincUnknownError : exn :=
  mk_exn MiniZincUnknownError
         [lit "The solution of the problem is unknown."] None.

(** [MiniZincUnboundedError()] *)
Definition new_MiniZincUnboundedError : exn :=
  mk_exn MiniZincUnboundedError [lit "The problem is unbounded."] None.

Definition new_TypeError (msg : str) : exn := mk_exn TypeError [msg] None.

Definition new_FileNotFoundError (path : str) : exn :=
  mk_exn FileNotFoundError [path] None.

Definition new_CalledProcessError (stderr : str) : exn :=
  mk_exn CalledProcessError [] (Some stderr).

(** [err.stderr] *)
Definition stderr_of (e : exn) : str :=
  match exn_stderr e with Some s => s | None => [] end.

(** ** The world and the monad *)

(** One element of an argument list handed to [cmd]: a pair such as
    [('-G', dir)], a text, or [None]. *)
Inductive Arg : Type :=
  | ArgPair (flag value : str)
  | ArgStr (s : str)
  | ArgNone.

(** Modelled from the spec: [pymzn.bin.cmd] is not part of the source
    file; [cmd(name, args)] is kept as the pair of the program name and
    the argument list that [run] receives. *)
Record Command : Type := cmd {
  cmd_name : str;
  cmd_args : list Arg
}.

(** The invocations of collaborators, in the order they happen. *)
Inductive Call : Type :=
  | CallModel (raw_output : bool)
  | CallRun (c : Command) (stdin : option str)
  | CallSolver (fzn_file : option str).

(** The records handed to the module's logger. *)
Inductive LogRecord : Type :=
  | LogCalling (name : str) (args : list Arg)
  | LogSolutionFound (soln : str)
  | LogDeleting (path : str)
  | LogException (stderr : str).

(** The filesystem is the set of paths naming a regular file. *)
Record World : Type := mk_world {
  files : gset str;
  calls : list Call;
  log : list LogRecord
}.

(** The outcome of a call: a returned value or a raised exception. *)
Inductive Res (A : Type) : Type :=
  | Return (a : A)
  | Raise (e : exn).
Arguments Return {A} a.
Arguments Raise {A} e.

Definition M (A : Type) : Type := World -> World * Res A.

Definition ret {A} (a : A) : M A := fun w => (w, Return a).

Definition raise {A} (e : exn) : M A := fun w => (w, Raise e).

Definition bind {A B} (m : M A) (k : A -> M B) : M B :=
  fun w =>
    match m w with
    | (w', Return a) => k a w'
    | (w', Raise e) => (w', Raise e)
    end.

#[global] Instance M_ret : MRet M := @ret.
#[global] Instance M_bind : MBind M := fun A B k m => bind m k.

(** [try: body / except cls as err: handler err] *)
Definition try_except {A} (body : M A) (cls : pyclass)
    (handler : exn -> M A) : M A :=
  fun w =>
    match body w with
    | (w', Raise e) =>
        if isinstance e cls then handler e w' else (w', Raise e)
    | r => r
    end.

(** [try: body / finally: cleanup]: the cleanup runs on every exit of the
    body; an exception of the cleanup replaces the body's outcome. *)
Definition try_finally {A} (body : M A) (cleanup : M unit) : M A :=
  fun w =>
    match body w with
    | (w', r) =>
        match cleanup w' with
        | (w'', Return _) => (w'', r)
        | (w'', Raise e) => (w'', Raise e)
        end
    end.

(** [with contextlib.suppress(cls): body] *)
Definition suppress (cls : pyclass) (body : M unit) : M unit :=
  fun w =>
    match body w with
    | (w', Raise e) =>
        if isinstance e cls then (w', Return tt) else (w', Raise e)
    | r => r
    end.

(** [if cond: body] *)
Definition when (cond : bool) (body : M unit) : M unit :=
  if cond then body else ret tt.

Definition world_after {A} (m : M A) (w : World) : World := fst (m w).
Definition result_of {A} (m : M A) (w : World) : Res A := snd (m w).

(** [log.debug] and [log.exception] hand a record to the logger. *)
Definition log_record (r : LogRecord) : M unit :=
  fun w => (mk_world (files w) (calls w) (log w ++ [r]), Return tt).

(** [os.path.isfile(path)]; the empty path names nothing. *)
Definition isfile (path : str) (fs : gset str) : bool :=
  truthy path && bool_decide (path ∈ fs).

Definition os_path_isfile (path : str) : M bool :=
  fun w => (w, Return (isfile path (files w))).

(** [os.remove(path)] on a filesystem whose entries are regular files
    the process may delete: the file is removed, or [FileNotFoundError]
    is raised when the path names none.  A path that names a directory
    or a protected file, for which [os.remove] raises another [OSError],
    is not among what [files] records. *)
Definition os_remove (path : str) : M unit :=
  fun w =>
    if isfile path (files w)
    then (mk_world (files w ∖ {[ path ]}) (calls w) (log w), Return tt)
    else (w, Raise (new_FileNotFoundError path)).

(** [s.rfind(c)]: the index of the last occurrence of [c], or [-1]. *)
Fixpoint rfind_from (i : Z) (c : char) (s : str) (found : Z) : Z :=
  match s with
  | [] => found
  | x :: s' => rfind_from (i + 1) c s' (if N.eqb x c then i else found)
  end.

Definition rfind (c : char) (s : str) : Z := rfind_from 0 c s (-1).

Definition SLASH : char := 47%N.
Definition DOT : char := 46%N.
Definition DQUOTE : char := 34%N.

(** [os.path.splitext(p)[0]] of [posixpath]: the path up to the last dot
    of its last component, unless that component has nothing but dots
    before it. *)
Definition splitext_root (p : str) : str :=
  let sepIndex := rfind SLASH p in
  let dotIndex := rfind DOT p in
  if (sepIndex <? dotIndex)%Z then
    let before := drop (Z.to_nat (sepIndex + 1)) (take (Z.to_nat dotIndex) p) in
    if forallb (N.eqb DOT) before then p else take (Z.to_nat dotIndex) p
  else p.

(** ** The module *)

Section Pipeline.

(** The values [parse_dzn] produces and the mappings [dzn] encodes
    belong to the data codec. *)
Context {Assignment Data : Type}.

(** [config.mzn2fzn_cmd] and [config.solns2out_cmd] *)
Variable mzn2fzn_cmd solns2out_cmd : str.

(** The command runner [pymzn.bin.run]: on the files present it leaves
    new files and either the captured standard output ([inr]) or, on a
    non-zero exit, the captured standard error ([inl]). *)
Variable run_tool :
  Command -> option str -> gset str -> gset str * (str + str).

(** The solver function [fzn_fn], its keyword arguments fixed. *)
Variable fzn_fn : option str -> gset str -> gset str * Res str.

(** The model adapter [pymzn.mzn.model.MiniZincModel]: lines 91 to 100
    build the model, add the dzn output statement unless [raw_output],
    and compile it to a file whose path they return. *)
Variable model_adapter : bool -> gset str -> gset str * Res str.

(** The data codec: [pymzn.dzn.dzn] and [pymzn.dzn.parse_dzn]. *)
Variable dzn : Data -> list str.
Variable parse_dzn : str -> Res Assignment.

(** Modelled from the spec: [pymzn.bin.run] is not part of the source
    file; by its contract [run(command, stdin=...)] returns the captured
    standard output and raises [CalledProcessError], carrying the
    captured standard error, on a non-zero exit. *)
Definition run (c : Command) (stdin : option str) : M str :=
  fun w =>
    let w1 := mk_world (files w) (calls w ++ [CallRun c stdin]) (log w) in
    match run_tool c stdin (files w1) with
    | (fs, inr out) => (mk_world fs (calls w1) (log w1), Return out)
    | (fs, inl err) =>
        (mk_world fs (calls w1) (log w1), Raise (new_CalledProcessError err))
    end.

(** [fzn_fn(fzn_file, **fzn_args)] *)
Definition call_fzn_fn (fzn_file : option str) : M str :=
  fun w =>
    let w1 := mk_world (files w) (calls w ++ [CallSolver fzn_file]) (log w) in
    match fzn_fn fzn_file (files w1) with
    | (fs, r) => (mk_world fs (calls w1) (log w1), r)
    end.

(** Lines 91 to 100: from the arguments of [minizinc] to [mzn_file]. *)
Definition compile_model (raw_output : bool) : M str :=
  fun w =>
    let w1 := mk_world (files w) (calls w ++ [CallModel raw_output]) (log w) in
    match model_adapter raw_output (files w1) with
    | (fs, r) => (mk_world fs (calls w1) (log w1), r)
    end.

(** An optional path as an element of an argument list. *)
Definition arg_of (p : option str) : Arg :=
  match p with Some s => ArgStr s | None => ArgNone end.

(** *** [solns2out] *)

Definition soln_sep : str := lit "----------".
Definition search_complete_msg : str := lit "==========".
Definition unsat_msg : str := lit "=====UNSATISFIABLE=====".
Definition unkn_msg : str := lit "=====UNKNOWN=====".
Definition unbnd_msg : str := lit "=====UNBOUNDED=====".

(** The loop of lines 220 to 237, on the lines still to read, with the
    two lists it updates.  [break] leaves the loop for [return solns]. *)
Fixpoint scan (lines : list str) (solns curr_out : list str)
    : M (list str) :=
  match lines with
  | [] => mret solns
  | line :: rest =>
      let line := strip line in
      if str_eqb line soln_sep then
        let soln := join [NL] curr_out in
        log_record (LogSolutionFound soln) ;;
        scan rest (solns ++ [soln]) []
      else if str_eqb line search_complete_msg then
        mret solns
      else if str_eqb line unkn_msg then
        raise new_MiniZincUnknownError
      else if str_eqb line unsat_msg then
        raise new_MiniZincUnsatisfiableError
      else if str_eqb line unbnd_msg then
        raise new_MiniZincUnboundedError
      else
        scan rest solns (curr_out ++ [line])
  end.

(** Lines 217 to 237: the line scan of the text the tool returned. *)
Definition solns2out_scan (out : str) : M (list str) :=
  let lines := split NL out in
  scan lines [] [].

Definition solns2out (solns_input : str) (ozn_file : option str)
    : M (list str) :=
  let args := [arg_of ozn_file] in
  log_record (LogCalling solns2out_cmd args) ;;
  out ← try_except (run (cmd solns2out_cmd args) (Some solns_input))
          CalledProcessError
          (fun err =>
             log_record (LogException (stderr_of err)) ;;
             raise (new_RuntimeError (stderr_of err)));
  solns2out_scan out.

(** *** [mzn2fzn] *)

(** Lines 150 to 160 for an empty [dzn_files]: the argument list. *)
Definition mzn2fzn_args (mzn_file : str) (data : option Data)
    (mzn_globals_dir : option str) : list Arg :=
  let args := [] in
  let args :=
    match mzn_globals_dir with
    | Some d => if truthy d then args ++ [ArgPair (lit "-G") d] else args
    | None => args
    end in
  let args :=
    match data with
    | Some d =>
        let data := [DQUOTE] ++ join (lit " ") (dzn d) ++ [DQUOTE] in
        args ++ [ArgPair (lit "-D") data]
    | None => args
    end in
  args ++ [ArgStr mzn_file] ++ [].

(** [dzn_files] is the tuple of the extra positional arguments.  An
    empty tuple is replaced by [[]]; a non-empty one stays a tuple, and
    [[mzn_file] + dzn_files] then adds a tuple to a list, which raises
    [TypeError]. *)
Definition mzn2fzn (mzn_file : str) (dzn_files : list str)
    (data : option Data) (mzn_globals_dir : option str)
    : M (option str * option str) :=
  args ← match dzn_files with
         | [] => mret (mzn2fzn_args mzn_file data mzn_globals_dir)
         | _ :: _ =>
             raise (new_TypeError
                      (lit "can only concatenate list (not " ++ [DQUOTE]
                         ++ lit "tuple" ++ [DQUOTE] ++ lit ") to list"))
         end;
  log_record (LogCalling mzn2fzn_cmd args) ;;
  try_except (run (cmd mzn2fzn_cmd args) None ;; mret tt)
    CalledProcessError
    (fun err =>
       log_record (LogException (stderr_of err)) ;;
       raise (new_RuntimeError (stderr_of err))) ;;
  let base := splitext_root mzn_file in
  let fzn_file := join (lit ".") [base; lit "fzn"] in
  is_fzn ← os_path_isfile fzn_file;
  let fzn_file := if is_fzn : bool then Some fzn_file else None in
  let ozn_file := join (lit ".") [base; lit "ozn"] in
  is_ozn ← os_path_isfile ozn_file;
  let ozn_file := if is_ozn : bool then Some ozn_file else None in
  mret (fzn_file, ozn_file).

(** *** [minizinc] *)

(** What [minizinc] returns for one solution: the text of [solns2out]
    when [raw_output], the value [parse_dzn] makes of it otherwise. *)
Inductive Solution : Type :=
  | RawSolution (s : str)
  | ParsedSolution (a : Assignment).

(** [list(map(parse_dzn, out))] *)
Fixpoint parse_all (out : list str) : M (list Solution) :=
  match out with
  | [] => mret []
  | s :: out' =>
      match parse_dzn s with
      | Return a =>
          rest ← parse_all out';
          mret (ParsedSolution a :: rest)
      | Raise e => raise e
      end
  end.

(** [if path: os.remove(path); log.debug('Deleting file: %s', path)] *)
Definition remove_if_set (path : option str) : M unit :=
  match path with
  | Some p =>
      when (truthy p) (os_remove p ;; log_record (LogDeleting p))
  | None => mret tt
  end.

(** Lines 106 to 112: the solver, the reconstruction and the shaping
    of the result. *)
Definition solve_and_read (fzn_file ozn_file : option str)
    (raw_output : bool) : M (list Solution) :=
  solns ← call_fzn_fn fzn_file;
  out ← solns2out solns ozn_file;
  if raw_output then mret (List.map RawSolution out)
  else parse_all out.

(** Lines 114 to 121: the inner [finally]. *)
Definition cleanup_outputs (keep : bool) (fzn_file ozn_file : option str)
    : M unit :=
  when (negb keep)
    (suppress FileNotFoundError
       (remove_if_set fzn_file ;;
        remove_if_set ozn_file)).

(** Lines 123 to 127: the outer [finally]. *)
Definition cleanup_model (keep : bool) (mzn_file : str) : M unit :=
  when (negb keep)
    (suppress FileNotFoundError (remove_if_set (Some mzn_file))).

(** Lines 102 to 127, once [mzn_file] is known. *)
Definition run_pipeline (mzn_file : str) (dzn_files : list str)
    (data : option Data) (keep raw_output : bool)
    (mzn_globals_dir : option str) : M (list Solution) :=
  try_finally
    (files_ ← mzn2fzn mzn_file dzn_files data mzn_globals_dir;
     let fzn_file := fst files_ in
     let ozn_file := snd files_ in
     try_finally
       (solve_and_read fzn_file ozn_file raw_output)
       (cleanup_outputs keep fzn_file ozn_file))
    (cleanup_model keep mzn_file).

Definition minizinc (dzn_files : list str) (data : option Data)
    (keep raw_output : bool) (mzn_globals_dir : option str)
    : M (list Solution) :=
  mzn_file ← compile_model raw_output;
  run_pipeline mzn_file dzn_files data keep raw_output mzn_globals_dir.

End Pipeline.

(** ** Reading the model *)

(** What kind of line the scan takes a line for, by the same chain of
    comparisons on the stripped line. *)
Inductive LineKind : Type :=
  | Separator
  | Complete
  | Unknown
  | Unsatisfiable
  | Unbounded
  | Content.

#[global] Instance LineKind_eq_dec : EqDecision LineKind.
Proof. solve_decision. Defined.

Definition kind_of (line : str) : LineKind :=
  let line := strip line in
  if str_eqb line soln_sep then Separator
  else if str_eqb line search_complete_msg then Complete
  else if str_eqb line unkn_msg then Unknown
  else if str_eqb line unsat_msg then Unsatisfiable
  else if str_eqb line unbnd_msg then Unbounded
  else Content.

(** The exception a fatal line raises. *)
Definition error_of (k : LineKind) : option exn :=
  match k with
  | Unknown => Some new_MiniZincUnknownError
  | Unsatisfiable => Some new_MiniZincUnsatisfiableError
  | Unbounded => Some new_MiniZincUnboundedError
  | _ => None
  end.

(** The outcome of the loop [scan], the world left aside. *)
Fixpoint scan_result (lines : list str) (solns curr_out : list str)
    : Res (list str) :=
  match lines with
  | [] => Return solns
  | line :: rest =>
      match kind_of line with
      | Separator => scan_result rest (solns ++ [join [NL] curr_out]) []
      | Complete => Return solns
      | Unknown => Raise new_MiniZincUnknownError
      | Unsatisfiable => Raise new_MiniZincUnsatisfiableError
      | Unbounded => Raise new_MiniZincUnboundedError
      | Content => scan_result rest solns (curr_out ++ [strip line])
      end
  end.

(** The records the loop [scan] hands to the logger. *)
Fixpoint scan_log (lines : list str) (curr_out : list str)
    : list LogRecord :=
  match lines with
  | [] => []
  | line :: rest =>
      match kind_of line with
      | Separator => LogSolutionFound (join [NL] curr_out) :: scan_log rest []
      | Content => scan_log rest (curr_out ++ [strip line])
      | _ => []
      end
  end.

(** The solutions a caller holds after a call: the returned list; an
    exception carries its class, its message and nothing else. *)
Definition delivered (r : Res (list str)) : list str :=
  match r with
  | Return solns => solns
  | Raise _ => []
  end.

(** The text of a block: its stripped lines joined by newlines. *)
Definition block_text (b : list str) : str := join [NL] (List.map strip b).

(** [closed_by_separators lines blocks]: the lines are the content lines
    of each block in turn, each block followed by a separator line. *)
Inductive closed_by_separators : list str -> list (list str) -> Prop :=
  | closed_none : closed_by_separators [] []
  | closed_block b sp rest bs :
      Forall (fun l => kind_of l = Content) b ->
      kind_of sp = Separator ->
      closed_by_separators rest bs ->
      closed_by_separators (b ++ sp :: rest) (b :: bs).

(** What follows the last closed block of a stream that ends without a
    failure: content lines, then the end of the text or a
    search-complete line and whatever comes after it. *)
Definition ends_quietly (lines : list str) : Prop :=
  exists trailing tail,
    lines = trailing ++ tail /\
    Forall (fun l => kind_of l = Content) trailing /\
    match tail with
    | [] => True
    | l :: _ => kind_of l = Complete
    end.

(** The fatal sentinels, each with the exception its line raises. *)
Definition fatal_sentinels : list (str * exn) :=
  [ (unsat_msg, new_MiniZincUnsatisfiableError);
    (unkn_msg, new_MiniZincUnknownError);
    (unbnd_msg, new_MiniZincUnboundedError) ].

(** ** Scenarios *)

Module Scenario.

(** A text given line by line. *)
Definition text (ls : list string) : str := join [NL] (List.map lit ls).

Definition empty_world : World := mk_world ∅ [] [].

(** Two solutions, the first of two lines, then the end of search. *)
Definition two_solutions : str :=
  text ["x = 1;"; "  y = 2; "; "----------"; "x = 3;"; "----------";
        "=========="]%string.

(** One complete solution followed directly by the unknown sentinel. *)
Definition solution_then_unknown : str :=
  text ["a"; "----------"; "=====UNKNOWN====="]%string.

(** An unsatisfiable problem, with text after the sentinel. *)
Definition unsat_then_more : str :=
  text ["% note"; "=====UNSATISFIABLE====="; "x = 1;"; "----------"]%string.

(** A truncated stream: one closed block, an empty block, a block with
    a blank line, and content no separator closes. *)
Definition truncated : str :=
  text ["a"; "----------"; "----------"; "b"; "   "; "c"; "----------";
        "d"]%string.

(** The toolchain of the scenarios. *)
Definition mzn2fzn_cmd : str := lit "mzn2fzn".
Definition solns2out_cmd : str := lit "solns2out".

(** The model adapter writes [m.mzn]. *)
Definition adapter (raw_output : bool) (fs : gset str)
    : gset str * Res str :=
  ({[ lit "m.mzn" ]} ∪ fs, Return (lit "m.mzn")).

(** A flattener that rejects the model. *)
Definition failing_tools (c : Command) (stdin : option str)
    (fs : gset str) : gset str * (str + str) :=
  (fs, inl (lit "m.mzn:1: syntax error")).

(** A flattener that writes [m.fzn] and [m.ozn], and a reconstruction
    tool that echoes the stream it is given. *)
Definition working_tools (c : Command) (stdin : option str)
    (fs : gset str) : gset str * (str + str) :=
  if str_eqb (cmd_name c) mzn2fzn_cmd
  then ({[ lit "m.fzn"; lit "m.ozn" ]} ∪ fs, inr [])
  else (fs, inr (match stdin with Some s => s | None => [] end)).

(** A flattener that succeeds and writes neither file. *)
Definition silent_tools (c : Command) (stdin : option str)
    (fs : gset str) : gset str * (str + str) :=
  if str_eqb (cmd_name c) mzn2fzn_cmd
  then (fs, inr [])
  else (fs, inr (match stdin with Some s => s | None => [] end)).

(** A solver that finds one solution. *)
Definition solver (fzn_file : option str) (fs : gset str)
    : gset str * Res str :=
  (fs, Return (text ["x = 1;"; "----------"; "=========="]%string)).

(** A solver that consumes the file it is given. *)
Definition consuming_solver (fzn_file : option str) (fs : gset str)
    : gset str * Res str :=
  (match fzn_file with Some f => fs ∖ {[ f ]} | None => fs end,
   Return (text ["x = 1;"; "----------"; "=========="]%string)).

(** A data codec over texts. *)
Definition dzn (d : list str) : list str := d.
Definition parse_dzn (s : str) : Res str := Return s.

(** A working directory in which an earlier run left [m.fzn]. *)
Definition stale_world : World := mk_world {[ lit "m.fzn" ]} [] [].

(** A working directory in which nothing was left. *)
Definition clean_world : World := empty_world.

Definition gecode : option str := Some (lit "gecode").

(** A run with [keep = False] whose flattening fails. *)
Definition failed_run : M (list (Solution (Assignment := str))) :=
  minizinc mzn2fzn_cmd solns2out_cmd failing_tools solver adapter dzn
    parse_dzn [] None false true gecode.

(** A run with [keep = False] in which every stage succeeds. *)
Definition good_run : M (list (Solution (Assignment := str))) :=
  minizinc mzn2fzn_cmd solns2out_cmd working_tools solver adapter dzn
    parse_dzn [] None false true gecode.

(** The same run with a solver that consumes the file it is given. *)
Definition consuming_run : M (list (Solution (Assignment := str))) :=
  minizinc mzn2fzn_cmd solns2out_cmd working_tools consuming_solver adapter
    dzn parse_dzn [] None false true gecode.

(** A run whose flattening writes neither file. *)
Definition silent_run : M (list (Solution (Assignment := str))) :=
  minizinc mzn2fzn_cmd solns2out_cmd silent_tools solver adapter dzn
    parse_dzn [] None false true gecode.

(** The world once the adapter has written [m.mzn] in [w]. *)
Definition compiled (w : World) : World :=
  world_after (compile_model adapter true) w.

End Scenario.

(** ** Further scenarios *)

Module Cases.

(** A model kept in a directory. *)
Definition queens : str := lit "models/queens.mzn".

(** A flattener that writes the flattened constraints of [queens] and
    no output specification. *)
Definition flattener (c : Command) (stdin : option str) (fs : gset str)
    : gset str * (str + str) :=
  ({[ lit "models/queens.fzn" ]} ∪ fs, inr []).

(** A decoder that rejects the empty block. *)
Definition picky_parse_dzn (s : str) : Res str :=
  if truthy s then Return s
  else Raise (mk_exn (UserException 1) [lit "empty solution"] None).

(** The world in which [Scenario.good_run] reaches its cleanup. *)
Definition before_cleanup : World :=
  world_after
    (solve_and_read Scenario.solns2out_cmd Scenario.working_tools
       Scenario.solver Scenario.parse_dzn
       (Some (lit "m.fzn")) (Some (lit "m.ozn")) true)
    (world_after
       (mzn2fzn Scenario.mzn2fzn_cmd Scenario.working_tools Scenario.dzn
          (lit "m.mzn") [] None Scenario.gecode)
       (Scenario.compiled Scenario.clean_world)).

(** The world in which [Scenario.consuming_run] reaches its cleanup. *)
Definition before_cleanup_consumed : World :=
  world_after
    (solve_and_read Scenario.solns2out_cmd Scenario.working_tools
       Scenario.consuming_solver Scenario.parse_dzn
       (Some (lit "m.fzn")) (Some (lit "m.ozn")) true)
    (world_after
       (mzn2fzn Scenario.mzn2fzn_cmd Scenario.working_tools Scenario.dzn
          (lit "m.mzn") [] None Scenario.gecode)
       (Scenario.compiled Scenario.clean_world)).

(** A model adapter that cannot read its model. *)
Definition broken_adapter (raw_output : bool) (fs : gset str)
    : gset str * Res str :=
  (fs, Raise (mk_exn (UserException 2) [lit "no such model"] None)).

End Cases.

(** ** Facts about text *)

Lemma split_not_nil sep s : split sep s <> [].
Proof.
  destruct s as [|c s]; simpl; [discriminate|].
  destruct (N.eqb c sep); [discriminate|].
  destruct (split sep s); discriminate.
Qed.

Lemma split_no_sep sep (l : str) : sep ∉ l -> split sep l = [l].
Proof.
  induction l as [|c l IH]; intros Hl; simpl; [reflexivity|].
  apply not_elem_of_cons in Hl as [Hc Hl].
  destruct (N.eqb_spec c sep) as [->|_]; [congruence|].
  rewrite (IH Hl). reflexivity.
Qed.

Lemma split_app_sep sep (l s : str) :
  sep ∉ l -> split sep (l ++ sep :: s) = l :: split sep s.
Proof.
  induction l as [|c l IH]; intros Hl; simpl.
  - rewrite N.eqb_refl. reflexivity.
  - apply not_elem_of_cons in Hl as [Hc Hl].
    destruct (N.eqb_spec c sep) as [->|_]; [congruence|].
    rewrite (IH Hl). reflexivity.
Qed.

Lemma split_pieces_no_sep sep s : Forall (fun l => sep ∉ l) (split sep s).
Proof.
  induction s as [|c s IH]; simpl.
  - repeat constructor. apply not_elem_of_nil.
  - destruct (N.eqb_spec c sep) as [->|Hc].
    + constructor; [apply not_elem_of_nil | exact IH].
    + destruct (split sep s) as [|p ps]; [repeat constructor|].
      * apply not_elem_of_cons; split; [congruence | apply not_elem_of_nil].
      * inversion IH; subst. constructor; [|assumption].
        apply not_elem_of_cons; split; [congruence | assumption].
Qed.

Lemma join_cons sep (p : str) (ps : list str) :
  ps <> [] -> join sep (p :: ps) = p ++ sep ++ join sep ps.
Proof. destruct ps; [congruence | reflexivity]. Qed.

(** Splitting the join of newline-free lines gives the lines back. *)
Lemma split_join (ls : list str) :
  ls <> [] -> Forall (fun l => NL ∉ l) ls -> split NL (join [NL] ls) = ls.
Proof.
  induction ls as [|l ls IH]; intros Hne Hls; [congruence|].
  inversion Hls as [|? ? Hl Hls']; subst.
  destruct ls as [|l' ls].
  - simpl. apply split_no_sep, Hl.
  - rewrite join_cons by discriminate.
    change (split NL (l ++ NL :: join [NL] (l' :: ls)) = l :: l' :: ls).
    rewrite split_app_sep by exact Hl.
    rewrite IH; [reflexivity | discriminate | exact Hls'].
Qed.

(** Joining the pieces of a split gives the text back. *)
Lemma join_split (s : str) : join [NL] (split NL s) = s.
Proof.
  induction s as [|c s IH]; [reflexivity|].
  simpl split. destruct (N.eqb_spec c NL) as [->|Hc].
  - rewrite join_cons by apply split_not_nil. rewrite IH. reflexivity.
  - pose proof (split_not_nil NL s) as Hne.
    destruct (split NL s) as [|p ps]; [congruence|].
    destruct ps as [|p' ps]; simpl in *; congruence.
Qed.

Lemma lstrip_all_space (s : str) : forallb is_space s = true -> lstrip s = [].
Proof.
  induction s as [|c s IH]; simpl; [reflexivity|].
  intros [Hc Hs]%andb_true_iff. rewrite Hc. auto.
Qed.

(** A line of nothing but whitespace strips to the empty text. *)
Lemma strip_blank (s : str) : forallb is_space s = true -> strip s = [].
Proof.
  intros H. unfold strip. rewrite (lstrip_all_space s H). reflexivity.
Qed.

Lemma kind_of_blank (s : str) :
  forallb is_space s = true -> kind_of s = Content.
Proof.
  intros H. unfold kind_of. rewrite (strip_blank s H). reflexivity.
Qed.

Lemma split_join_app (ls rest : list str) :
  ls <> [] -> Forall (fun l => NL ∉ l) ls ->
  split NL (join [NL] (ls ++ rest)) =
  ls ++ match rest with [] => [] | _ :: _ => split NL (join [NL] rest) end.
Proof.
  induction ls as [|l ls IH]; intros Hne Hls; [congruence|].
  inversion Hls as [|? ? Hl Hls']; subst.
  destruct ls as [|l' ls].
  - destruct rest as [|r rest].
    + simpl. apply split_no_sep, Hl.
    + change (([l] ++ r :: rest)) with (l :: r :: rest).
      rewrite join_cons by discriminate.
      change (split NL (l ++ NL :: join [NL] (r :: rest)) =
              l :: split NL (join [NL] (r :: rest))).
      apply split_app_sep, Hl.
  - change ((l :: l' :: ls) ++ rest) with (l :: (l' :: ls) ++ rest).
    rewrite join_cons by discriminate.
    change (split NL (l ++ NL :: join [NL] ((l' :: ls) ++ rest)) =
            l :: (l' :: ls) ++
              match rest with [] => [] | _ :: _ => split NL (join [NL] rest) end).
    rewrite split_app_sep by exact Hl.
    rewrite IH; [reflexivity | discriminate | exact Hls'].
Qed.

Lemma sentinels_one_line :
  Forall (fun l => NL ∉ l)
    [soln_sep; search_complete_msg; unkn_msg; unsat_msg; unbnd_msg].
Proof.
  repeat constructor;
    apply (bool_decide_unpack _); vm_compute; exact I.
Qed.

(** ** Facts about the line scan *)

(** The loop touches the logger only, and its outcome is [scan_result]. *)
Lemma scan_run (lines : list str) :
  forall solns curr_out w,
    scan lines solns curr_out w =
    (mk_world (files w) (calls w) (log w ++ scan_log lines curr_out),
     scan_result lines solns curr_out).
Proof.
  induction lines as [|line rest IH]; intros solns curr_out w.
  - destruct w; simpl. rewrite app_nil_r. reflexivity.
  - simpl scan; simpl scan_result; simpl scan_log. unfold kind_of.
    destruct (str_eqb (strip line) soln_sep).
    { unfold mbind, M_bind, bind, log_record. rewrite IH. simpl.
      rewrite <- app_assoc. reflexivity. }
    destruct (str_eqb (strip line) search_complete_msg).
    { destruct w; simpl. rewrite app_nil_r. reflexivity. }
    destruct (str_eqb (strip line) unkn_msg).
    { destruct w; simpl. unfold raise. rewrite app_nil_r. reflexivity. }
    destruct (str_eqb (strip line) unsat_msg).
    { destruct w; simpl. unfold raise. rewrite app_nil_r. reflexivity. }
    destruct (str_eqb (strip line) unbnd_msg).
    { destruct w; simpl. unfold raise. rewrite app_nil_r. reflexivity. }
    apply IH.
Qed.

Lemma solns2out_scan_result (out : str) (w : World) :
  result_of (solns2out_scan out) w = scan_result (split NL out) [] [].
Proof. unfold result_of, solns2out_scan. rewrite scan_run. reflexivity. Qed.

Lemma scan_result_content (b : list str) :
  Forall (fun l => kind_of l = Content) b ->
  forall rest solns curr_out,
    scan_result (b ++ rest) solns curr_out =
    scan_result rest solns (curr_out ++ List.map strip b).
Proof.
  induction 1 as [|l b Hl _ IH]; intros rest solns curr_out; simpl.
  - rewrite app_nil_r. reflexivity.
  - rewrite Hl, IH, <- app_assoc. reflexivity.
Qed.

Lemma scan_result_closed (lines : list str) (blocks : list (list str)) :
  closed_by_separators lines blocks ->
  forall rest solns,
    scan_result (lines ++ rest) solns [] =
    scan_result rest (solns ++ List.map block_text blocks) [].
Proof.
  induction 1 as [|b sp more bs Hb Hsp _ IH]; intros rest solns; simpl.
  - rewrite app_nil_r. reflexivity.
  - rewrite <- app_assoc. rewrite (scan_result_content b Hb).
    simpl. rewrite Hsp, IH, <- app_assoc. reflexivity.
Qed.

Lemma scan_result_quiet (lines : list str) :
  ends_quietly lines ->
  forall solns curr_out, scan_result lines solns curr_out = Return solns.
Proof.
  intros (trailing & tail & -> & Htr & Htail) solns curr_out.
  rewrite (scan_result_content trailing Htr).
  destruct tail as [|l tail]; simpl; [reflexivity|].
  rewrite Htail. reflexivity.
Qed.

Lemma scan_result_fatal (l : str) (e : exn) (post : list str) :
  error_of (kind_of l) = Some e ->
  forall solns curr_out, scan_result (l :: post) solns curr_out = Raise e.
Proof.
  intros He solns curr_out. simpl.
  destruct (kind_of l); simpl in He; congruence.
Qed.

(** The loop reads nothing after a line that is neither content nor a
    separator. *)
Lemma scan_stops_at (l : str) :
  kind_of l <> Content -> kind_of l <> Separator ->
  forall pre post post' solns curr_out,
    scan_result (pre ++ l :: post) solns curr_out =
    scan_result (pre ++ l :: post') solns curr_out /\
    scan_log (pre ++ l :: post) curr_out =
    scan_log (pre ++ l :: post') curr_out.
Proof.
  intros Hc Hs pre post post'.
  induction pre as [|p pre IH]; intros solns curr_out; simpl.
  - destruct (kind_of l); try congruence; auto.
  - destruct (kind_of p); auto.
    + destruct (IH (solns ++ [join [NL] curr_out]) []) as [-> ->]. auto.
Qed.

Lemma kind_of_fatal (l msg : str) (e : exn) :
  (msg, e) ∈ fatal_sentinels -> strip l = msg ->
  error_of (kind_of l) = Some e.
Proof.
  intros Hin Hl. unfold kind_of. rewrite Hl.
  unfold fatal_sentinels in Hin.
  repeat (apply elem_of_cons in Hin as [Heq|Hin];
          [injection Heq as -> ->; reflexivity|]).
  apply elem_of_nil in Hin. contradiction.
Qed.

Lemma error_of_stops (l : str) (e : exn) :
  error_of (kind_of l) = Some e ->
  kind_of l <> Content /\ kind_of l <> Separator.
Proof. destruct (kind_of l); simpl; intros; split; congruence. Qed.

(** Every list of lines is closed blocks followed either by a quiet end
    or by content lines and a fatal line. *)
Lemma stream_shape (lines : list str) :
  exists closed blocks rest,
    lines = closed ++ rest /\
    closed_by_separators closed blocks /\
    (ends_quietly rest \/
     exists open l post e,
       rest = open ++ l :: post /\
       Forall (fun l => kind_of l = Content) open /\
       error_of (kind_of l) = Some e).
Proof.
  induction lines as [|a lines IH].
  - exists [], [], []. repeat split; [constructor|].
    left. exists [], []. repeat split. constructor.
  - destruct IH as (closed & blocks & rest & -> & Hcl & Hrest).
    destruct (kind_of a) eqn:Ha.
    + exists (a :: closed), ([] :: blocks), rest.
      repeat split; [|exact Hrest].
      apply (closed_block [] a closed blocks); auto.
    + exists [], [], (a :: closed ++ rest). repeat split; [constructor|].
      left. exists [], (a :: closed ++ rest). repeat split; auto.
    + exists [], [], (a :: closed ++ rest). repeat split; [constructor|].
      right. exists [], a, (closed ++ rest), new_MiniZincUnknownError.
      rewrite Ha. repeat split; auto.
    + exists [], [], (a :: closed ++ rest). repeat split; [constructor|].
      right. exists [], a, (closed ++ rest), new_MiniZincUnsatisfiableError.
      rewrite Ha. repeat split; auto.
    + exists [], [], (a :: closed ++ rest). repeat split; [constructor|].
      right. exists [], a, (closed ++ rest), new_MiniZincUnboundedError.
      rewrite Ha. repeat split; auto.
    + inversion Hcl as [|b sp more bs Hb Hsp Hmore]; subst.
      * exists [], [], (a :: rest). repeat split; [constructor|].
        destruct Hrest as [(tr & tl & -> & Htr & Htl)
                          |(open & l & post & e & -> & Hopen & He)].
        -- left. exists (a :: tr), tl. repeat split; auto.
        -- right. exists (a :: open), l, post, e. repeat split; auto.
      * exists ((a :: b) ++ sp :: more), ((a :: b) :: bs), rest.
        repeat split; [|exact Hrest].
        apply closed_block; auto.
Qed.

Lemma scan_result_reaches (pre : list str) (l : str) (e : exn)
    (post : list str) :
  Forall (fun p => kind_of p = Content \/ kind_of p = Separator) pre ->
  error_of (kind_of l) = Some e ->
  forall solns curr_out,
    scan_result (pre ++ l :: post) solns curr_out = Raise e.
Proof.
  intros Hpre He.
  induction Hpre as [|p pre [Hp|Hp] _ IH]; intros solns curr_out.
  - apply scan_result_fatal, He.
  - simpl. rewrite Hp. apply IH.
  - simpl. rewrite Hp. apply IH.
Qed.

(** Closed blocks and then a quiet end: the texts of the blocks. *)
Lemma scan_closed_then_quiet (out : str) (closed : list str)
    (blocks : list (list str)) (rest : list str) (w : World) :
  split NL out = closed ++ rest ->
  closed_by_separators closed blocks ->
  ends_quietly rest ->
  result_of (solns2out_scan out) w = Return (List.map block_text blocks).
Proof.
  intros Hsplit Hclosed Hrest.
  rewrite solns2out_scan_result, Hsplit.
  rewrite (scan_result_closed closed blocks Hclosed).
  apply scan_result_quiet, Hrest.
Qed.

(** ** The solution stream scan *)

(** C1: for every stream of the form [L1, L2, ----------, L3, ----------,
    ==========] (one item per line, [L1], [L2] and [L3] content lines,
    whatever follows the search-complete line), the line scan returns
    exactly two blocks: the stripped [L1] and [L2] joined by a newline,
    and the stripped [L3]. *)
Theorem two_blocks_stream (L1 L2 L3 : str) (rest : list str) (w : World) :
  NL ∉ L1 -> NL ∉ L2 -> NL ∉ L3 ->
  kind_of L1 = Content -> kind_of L2 = Content -> kind_of L3 = Content ->
  result_of
    (solns2out_scan
       (join [NL]
          ([L1; L2; soln_sep; L3; soln_sep; search_complete_msg] ++ rest)))
    w
  = Return [strip L1 ++ [NL] ++ strip L2; strip L3].
Proof.
  intros N1 N2 N3 K1 K2 K3.
  rewrite solns2out_scan_result.
  pose proof sentinels_one_line as Hs.
  inversion Hs as [|? ? Hsep Hs1]; subst.
  inversion Hs1 as [|? ? Hcomp _]; subst.
  rewrite split_join_app; [|discriminate|repeat constructor; assumption].
  simpl. rewrite K1, K2. simpl.
  change (kind_of soln_sep) with Separator. cbv iota.
  rewrite K3.
  change (kind_of soln_sep) with Separator. cbv iota.
  change (kind_of search_complete_msg) with Complete. cbv iota.
  reflexivity.
Qed.

Lemma two_blocks_stream_witness :
  result_of (solns2out_scan Scenario.two_solutions) Scenario.empty_world
  = Return [lit "x = 1;" ++ [NL] ++ lit "y = 2;"; lit "x = 3;"].
Proof.
  apply (two_blocks_stream (lit "x = 1;") (lit "  y = 2; ") (lit "x = 3;")
           [] Scenario.empty_world);
    try (apply (bool_decide_unpack _); vm_compute; exact I);
    vm_compute; reflexivity.
Defined.

(** C2: whenever the scan reaches a line whose stripped text is
    [=====UNSATISFIABLE=====], [=====UNKNOWN=====] or [=====UNBOUNDED=====],
    it raises the error of that sentinel, the three errors being of
    three different classes; no solution is returned; what follows the
    line is not read (the stream cut after the line gives the same world
    and outcome); and the stream made of [=====UNSATISFIABLE=====] alone
    raises the unsatisfiable error. *)
Theorem fatal_sentinel_raises :
  (forall (out : str) (pre : list str) (l : str) (post : list str)
          (msg : str) (e : exn) (w : World),
      split NL out = pre ++ l :: post ->
      Forall (fun p => kind_of p = Content \/ kind_of p = Separator) pre ->
      (msg, e) ∈ fatal_sentinels ->
      strip l = msg ->
      result_of (solns2out_scan out) w = Raise e /\
      delivered (result_of (solns2out_scan out) w) = [] /\
      solns2out_scan out w = solns2out_scan (join [NL] (pre ++ [l])) w) /\
  NoDup (List.map (fun p => exn_class (snd p)) fatal_sentinels) /\
  (forall w : World,
      result_of (solns2out_scan unsat_msg) w
      = Raise new_MiniZincUnsatisfiableError).
Proof.
  split; [|split].
  - intros out pre l post msg e w Hsplit Hpre Hin Hl.
    pose proof (kind_of_fatal l msg e Hin Hl) as He.
    destruct (error_of_stops l e He) as [Hc Hs].
    assert (Hres : result_of (solns2out_scan out) w = Raise e).
    { rewrite solns2out_scan_result, Hsplit.
      apply scan_result_reaches; assumption. }
    split; [exact Hres|]. split; [rewrite Hres; reflexivity|].
    unfold solns2out_scan. rewrite !scan_run.
    assert (Hlines : split NL (join [NL] (pre ++ [l])) = pre ++ [l]).
    { apply split_join; [destruct pre; discriminate|].
      pose proof (split_pieces_no_sep NL out) as Hno.
      rewrite Hsplit in Hno. apply Forall_app in Hno as [Hno1 Hno2].
      apply Forall_app; split; [exact Hno1|].
      inversion Hno2; subst. repeat constructor; assumption. }
    rewrite Hlines, Hsplit.
    destruct (scan_stops_at l Hc Hs pre post [] [] []) as [-> ->].
    reflexivity.
  - apply (bool_decide_unpack _). vm_compute. exact I.
  - intros w. rewrite solns2out_scan_result. reflexivity.
Qed.

Lemma fatal_sentinel_raises_witness :
  result_of (solns2out_scan Scenario.unsat_then_more) Scenario.empty_world
  = Raise new_MiniZincUnsatisfiableError /\
  delivered
    (result_of (solns2out_scan Scenario.unsat_then_more) Scenario.empty_world)
  = [] /\
  solns2out_scan Scenario.unsat_then_more Scenario.empty_world
  = solns2out_scan
      (join [NL] ([lit "% note"] ++ [lit "=====UNSATISFIABLE====="]))
      Scenario.empty_world.
Proof.
  apply (proj1 fatal_sentinel_raises Scenario.unsat_then_more
           [lit "% note"] (lit "=====UNSATISFIABLE=====")
           [lit "x = 1;"; lit "----------"]
           unsat_msg new_MiniZincUnsatisfiableError Scenario.empty_world).
  - vm_compute. reflexivity.
  - constructor; [left; vm_compute; reflexivity | constructor].
  - apply (bool_decide_unpack _). vm_compute. exact I.
  - vm_compute. reflexivity.
Defined.

(** C3: a stream whose lines are blocks closed by separator lines,
    followed by content lines and then either the end of the text or a
    [==========] line, makes the scan return exactly the texts of the
    closed blocks, in order, with no error; the content no separator
    closed is not in the result.  The empty stream returns the empty
    list. *)
Theorem quiet_end_returns_closed_blocks :
  (forall (out : str) (closed : list str) (blocks : list (list str))
          (rest : list str) (w : World),
      split NL out = closed ++ rest ->
      closed_by_separators closed blocks ->
      ends_quietly rest ->
      result_of (solns2out_scan out) w
      = Return (List.map block_text blocks)) /\
  (forall w : World, result_of (solns2out_scan []) w = Return []).
Proof.
  split.
  - intros out closed blocks rest w. apply scan_closed_then_quiet.
  - intros w. rewrite solns2out_scan_result. reflexivity.
Qed.

Lemma quiet_end_returns_closed_blocks_witness :
  result_of (solns2out_scan Scenario.truncated) Scenario.empty_world
  = Return [lit "a"; []; lit "b" ++ [NL] ++ [] ++ [NL] ++ lit "c"].
Proof.
  apply (proj1 quiet_end_returns_closed_blocks Scenario.truncated
           [lit "a"; lit "----------"; lit "----------";
            lit "b"; lit "   "; lit "c"; lit "----------"]
           [[lit "a"]; []; [lit "b"; lit "   "; lit "c"]]
           [lit "d"] Scenario.empty_world).
  - vm_compute. reflexivity.
  - apply (closed_block [lit "a"] (lit "----------")).
    { repeat (constructor; [vm_compute; reflexivity|]). constructor. }
    { vm_compute. reflexivity. }
    apply (closed_block [] (lit "----------")).
    { constructor. }
    { vm_compute. reflexivity. }
    apply (closed_block [lit "b"; lit "   "; lit "c"] (lit "----------") []).
    { repeat (constructor; [vm_compute; reflexivity|]). constructor. }
    { vm_compute. reflexivity. }
    constructor.
  - exists [lit "d"], []. split; [reflexivity|]. split; [|exact I].
    constructor; [vm_compute; reflexivity | constructor].
Defined.

(** C6, as amended: on a stream of one or more blocks closed by
    separators, followed by content lines and a fatal sentinel line, the
    scan stops at the sentinel and raises its error; no solution reaches
    the caller, the closed blocks included: the outcome is the one of the
    stream made of the sentinel alone. *)
Theorem fatal_after_solutions_discards_all
    (out : str) (closed : list str) (blocks : list (list str))
    (open : list str) (l : str) (post : list str) (msg : str) (e : exn)
    (w : World) :
  split NL out = closed ++ open ++ l :: post ->
  closed_by_separators closed blocks ->
  blocks <> [] ->
  Forall (fun p => kind_of p = Content) open ->
  (msg, e) ∈ fatal_sentinels ->
  strip l = msg ->
  result_of (solns2out_scan out) w = Raise e /\
  delivered (result_of (solns2out_scan out) w) = [] /\
  result_of (solns2out_scan out) w = result_of (solns2out_scan msg) w.
Proof.
  intros Hsplit Hclosed _ Hopen Hin Hl.
  pose proof (kind_of_fatal l msg e Hin Hl) as He.
  assert (Hres : result_of (solns2out_scan out) w = Raise e).
  { rewrite solns2out_scan_result, Hsplit.
    rewrite (scan_result_closed closed blocks Hclosed).
    rewrite (scan_result_content open Hopen).
    apply scan_result_fatal, He. }
  rewrite Hres. repeat split.
  rewrite solns2out_scan_result.
  unfold fatal_sentinels in Hin.
  repeat (apply elem_of_cons in Hin as [Heq|Hin];
          [injection Heq as -> ->; reflexivity|]).
  apply elem_of_nil in Hin. contradiction.
Qed.

Lemma fatal_after_solutions_discards_all_witness :
  result_of (solns2out_scan Scenario.solution_then_unknown)
    Scenario.empty_world = Raise new_MiniZincUnknownError /\
  delivered (result_of (solns2out_scan Scenario.solution_then_unknown)
               Scenario.empty_world) = [] /\
  result_of (solns2out_scan Scenario.solution_then_unknown)
    Scenario.empty_world
  = result_of (solns2out_scan unkn_msg) Scenario.empty_world.
Proof.
  apply (fatal_after_solutions_discards_all Scenario.solution_then_unknown
           [lit "a"; lit "----------"] [[lit "a"]] []
           (lit "=====UNKNOWN=====") [] unkn_msg new_MiniZincUnknownError
           Scenario.empty_world).
  - vm_compute. reflexivity.
  - apply (closed_block [lit "a"] (lit "----------") []).
    { constructor; [vm_compute; reflexivity | constructor]. }
    { vm_compute. reflexivity. }
    constructor.
  - discriminate.
  - constructor.
  - apply (bool_decide_unpack _). vm_compute. exact I.
  - vm_compute. reflexivity.
Defined.

(** C6, as stated, fails: in the stream [a, ----------, =====UNKNOWN=====]
    the block [a] is closed by a separator before the sentinel, and the
    scan of the closed part alone returns it, yet the scan of the whole
    stream raises and the solution [a] does not reach the caller. *)
Lemma completed_solution_not_preserved :
  split NL Scenario.solution_then_unknown
  = [lit "a"; soln_sep; unkn_msg] /\
  closed_by_separators [lit "a"; soln_sep] [[lit "a"]] /\
  result_of (solns2out_scan (Scenario.text ["a"; "----------"]%string))
    Scenario.empty_world = Return [lit "a"] /\
  result_of (solns2out_scan Scenario.solution_then_unknown)
    Scenario.empty_world = Raise new_MiniZincUnknownError /\
  lit "a" ∉ delivered (result_of
                         (solns2out_scan Scenario.solution_then_unknown)
                         Scenario.empty_world).
Proof.
  split; [vm_compute; reflexivity|].
  split.
  { apply (closed_block [lit "a"] soln_sep []).
    - constructor; [vm_compute; reflexivity | constructor].
    - vm_compute. reflexivity.
    - constructor. }
  split; [vm_compute; reflexivity|].
  split; [vm_compute; reflexivity|].
  rewrite solns2out_scan_result.
  apply (bool_decide_unpack _). vm_compute. exact I.
Qed.

(** C7: the line scan is a function of its input text alone: in every
    world it leaves the files and the trace of external invocations as
    they were, hands the logger records that depend on the text only,
    and gives the outcome the text determines; scanning the same text a
    second time, in the world the first scan left, gives the same
    outcome. *)
Theorem solns2out_scan_pure (out : str) :
  exists (records : list LogRecord) (r : Res (list str)),
    (forall w : World,
        solns2out_scan out w
        = (mk_world (files w) (calls w) (log w ++ records), r)) /\
    (forall w : World,
        result_of (solns2out_scan out)
          (world_after (solns2out_scan out) w)
        = result_of (solns2out_scan out) w).
Proof.
  exists (scan_log (split NL out) []), (scan_result (split NL out) [] []).
  split.
  - intros w. unfold solns2out_scan. apply scan_run.
  - intros w. rewrite !solns2out_scan_result. reflexivity.
Qed.

Lemma lookup_map_block_text (blocks : list (list str)) (i : nat)
    (b : list str) :
  blocks !! i = Some b ->
  List.map block_text blocks !! i = Some (block_text b).
Proof.
  revert i. induction blocks as [|b' blocks IH]; intros [|i] H;
    simpl in *; try discriminate.
  - congruence.
  - apply IH, H.
Qed.

Lemma scan_result_separators (n : nat) (solns : list str) :
  scan_result (replicate n soln_sep) solns []
  = Return (solns ++ replicate n []).
Proof.
  revert solns. induction n as [|n IH]; intros solns; simpl.
  - rewrite app_nil_r. reflexivity.
  - change (kind_of soln_sep) with Separator. cbv iota.
    rewrite IH, <- app_assoc. reflexivity.
Qed.

(** C9: a separator line with no content line since the previous
    separator, or since the start, yields the empty text as the solution
    at that position; [n] separator lines in a row yield [n] empty
    solutions; and a line of nothing but whitespace inside a block stays
    in the block as an empty line. *)
Theorem empty_blocks_and_blank_lines :
  (forall (out : str) (closed : list str) (blocks : list (list str))
          (rest : list str) (w : World) (i : nat),
      split NL out = closed ++ rest ->
      closed_by_separators closed blocks ->
      ends_quietly rest ->
      blocks !! i = Some [] ->
      exists solns,
        result_of (solns2out_scan out) w = Return solns /\
        length solns = length blocks /\
        solns !! i = Some []) /\
  (forall (n : nat) (w : World),
      result_of (solns2out_scan (join [NL] (replicate n soln_sep))) w
      = Return (replicate n [])) /\
  (forall (out : str) (closed : list str) (blocks : list (list str))
          (rest : list str) (w : World) (i : nat)
          (b1 : list str) (blank : str) (b2 : list str),
      split NL out = closed ++ rest ->
      closed_by_separators closed blocks ->
      ends_quietly rest ->
      blocks !! i = Some (b1 ++ blank :: b2) ->
      forallb is_space blank = true ->
      exists solns,
        result_of (solns2out_scan out) w = Return solns /\
        solns !! i
        = Some (join [NL] (List.map strip b1 ++ [] :: List.map strip b2))).
Proof.
  split; [|split].
  - intros out closed blocks rest w i Hsplit Hclosed Hrest Hi.
    exists (List.map block_text blocks). split; [|split].
    + apply (scan_closed_then_quiet out closed blocks rest w); assumption.
    + apply length_map.
    + apply (lookup_map_block_text blocks i [] Hi).
  - intros n w. rewrite solns2out_scan_result.
    destruct n as [|n]; [reflexivity|].
    rewrite split_join.
    + apply (scan_result_separators (S n) []).
    + discriminate.
    + apply Forall_replicate.
      pose proof sentinels_one_line as Hs. inversion Hs; assumption.
  - intros out closed blocks rest w i b1 blank b2 Hsplit Hclosed Hrest Hi Hb.
    exists (List.map block_text blocks). split.
    + apply (scan_closed_then_quiet out closed blocks rest w); assumption.
    + rewrite (lookup_map_block_text blocks i _ Hi).
      unfold block_text. rewrite map_app. simpl.
      rewrite (strip_blank blank Hb). reflexivity.
Qed.

Lemma empty_blocks_and_blank_lines_witness :
  (exists solns,
      result_of (solns2out_scan Scenario.truncated) Scenario.empty_world
      = Return solns /\
      length solns = 3 /\
      solns !! 1 = Some []) /\
  (exists solns,
      result_of (solns2out_scan Scenario.truncated) Scenario.empty_world
      = Return solns /\
      solns !! 2 = Some (lit "b" ++ [NL] ++ [] ++ [NL] ++ lit "c")).
Proof.
  assert (Hsplit : split NL Scenario.truncated
                   = [lit "a"; lit "----------"; lit "----------";
                      lit "b"; lit "   "; lit "c"; lit "----------"]
                     ++ [lit "d"]) by (vm_compute; reflexivity).
  assert (Hclosed : closed_by_separators
                      [lit "a"; lit "----------"; lit "----------";
                       lit "b"; lit "   "; lit "c"; lit "----------"]
                      [[lit "a"]; []; [lit "b"; lit "   "; lit "c"]]).
  { apply (closed_block [lit "a"] (lit "----------")).
    { repeat (constructor; [vm_compute; reflexivity|]). constructor. }
    { vm_compute. reflexivity. }
    apply (closed_block [] (lit "----------")).
    { constructor. }
    { vm_compute. reflexivity. }
    apply (closed_block [lit "b"; lit "   "; lit "c"] (lit "----------") []).
    { repeat (constructor; [vm_compute; reflexivity|]). constructor. }
    { vm_compute. reflexivity. }
    constructor. }
  assert (Hquiet : ends_quietly [lit "d"]).
  { exists [lit "d"], []. split; [reflexivity|]. split; [|exact I].
    constructor; [vm_compute; reflexivity | constructor]. }
  split.
  - exact (proj1 empty_blocks_and_blank_lines Scenario.truncated _ _ _
             Scenario.empty_world 1 Hsplit Hclosed Hquiet eq_refl).
  - exact (proj2 (proj2 empty_blocks_and_blank_lines) Scenario.truncated _ _ _
             Scenario.empty_world 2 [lit "b"] (lit "   ") [lit "c"]
             Hsplit Hclosed Hquiet eq_refl eq_refl).
Defined.

(** ** Facts about files and cleanup *)

Lemma isfile_true_iff (p : str) (fs : gset str) :
  isfile p fs = true <-> p <> [] /\ p ∈ fs.
Proof.
  unfold isfile. rewrite andb_true_iff, bool_decide_eq_true.
  destruct p; simpl; intuition congruence.
Qed.

Lemma isfile_false_iff (p : str) (fs : gset str) :
  isfile p fs = false <-> ~ (p <> [] /\ p ∈ fs).
Proof.
  rewrite <- isfile_true_iff. destruct (isfile p fs); intuition congruence.
Qed.

Lemma isfile_removed (p : str) (fs : gset str) :
  isfile p (fs ∖ {[ p ]}) = false.
Proof.
  apply isfile_false_iff. intros [_ H].
  apply elem_of_difference in H as [_ H]. apply H, elem_of_singleton.
  reflexivity.
Qed.


Lemma isfile_truthy (p : str) (fs : gset str) :
  isfile p fs = true -> truthy p = true.
Proof. unfold isfile. intros [H _]%andb_true_iff. exact H. Qed.

Lemma isinstance_FileNotFoundError (p : str) :
  isinstance (new_FileNotFoundError p) FileNotFoundError = true.
Proof. reflexivity. Qed.

(** [if path: os.remove(path); log.debug(...)], case by case. *)
Lemma remove_if_set_eq (path : option str) (w : World) :
  remove_if_set path w =
  match path with
  | Some p =>
      if isfile p (files w)
      then (mk_world (files w ∖ {[ p ]}) (calls w) (log w ++ [LogDeleting p]),
            Return tt)
      else if truthy p then (w, Raise (new_FileNotFoundError p))
      else (w, Return tt)
  | None => (w, Return tt)
  end.
Proof.
  destruct path as [p|]; [|reflexivity].
  unfold remove_if_set, when.
  destruct (isfile p (files w)) eqn:Hf.
  - rewrite (isfile_truthy _ _ Hf).
    unfold mbind, M_bind, bind, os_remove, log_record. rewrite Hf. reflexivity.
  - destruct (truthy p); [|reflexivity].
    unfold mbind, M_bind, bind, os_remove. rewrite Hf. reflexivity.
Qed.

Lemma isfile_false_cases (p : str) (fs : gset str) :
  isfile p fs = false <-> p = [] \/ p ∉ fs.
Proof.
  rewrite isfile_false_iff. destruct p as [|c p].
  - split; [left; reflexivity | intros _ [H _]; congruence].
  - split; [intros H; right; intros Hin; apply H; split; [discriminate|exact Hin]
           | intros [H|H] [_ Hin]; [discriminate | exact (H Hin)]].
Qed.

Lemma truthy_true_iff (p : str) : truthy p = true <-> p <> [].
Proof. destruct p; simpl; split; congruence. Qed.

Lemma truthy_false_iff (p : str) : truthy p = false <-> p = [].
Proof. destruct p; simpl; split; congruence. Qed.

Ltac unfold_monad :=
  unfold when, suppress, try_finally, try_except,
    mbind, M_bind, bind, mret, M_ret, ret, raise in *.

(** Case analysis on what the removals of a cleanup find on disk. *)
Ltac cleanup_cases :=
  repeat first
    [ rewrite remove_if_set_eq
    | rewrite isinstance_FileNotFoundError
    | match goal with
      | |- context [match ?o with Some _ => _ | None => _ end] =>
          is_var o; destruct o
      | |- context [if isfile ?p ?fs then _ else _] =>
          destruct (isfile p fs) eqn:?
      | |- context [if truthy ?p then _ else _] =>
          destruct (truthy p) eqn:?
      end
    | progress cbn [files calls log] ].

(** Facts on [isfile] and [truthy] as membership facts. *)
Ltac fs_facts :=
  repeat match goal with
    | H : isfile _ _ = true |- _ => apply isfile_true_iff in H
    | H : isfile _ _ = false |- _ => apply isfile_false_cases in H
    | H : truthy _ = true |- _ => apply truthy_true_iff in H
    | H : truthy _ = false |- _ => apply truthy_false_iff in H
    | |- isfile _ _ = false => apply isfile_false_cases
    | |- isfile _ _ = true => apply isfile_true_iff
    end.

(** The inner [finally]: it never raises, removes files only, and a
    second run changes nothing. *)
Lemma cleanup_outputs_spec (keep : bool) (fzn ozn : option str) (w : World) :
  exists w',
    cleanup_outputs keep fzn ozn w = (w', Return tt) /\
    calls w' = calls w /\
    files w' ⊆ files w /\
    (keep = true -> w' = w) /\
    (keep = false ->
     forall f, fzn = Some f -> isfile f (files w') = false) /\
    (keep = false ->
     forall o, ozn = Some o ->
       fzn = None \/ (exists f, fzn = Some f /\ isfile f (files w) = true) ->
       isfile o (files w') = false) /\
    cleanup_outputs keep fzn ozn w' = (w', Return tt).
Proof.
  unfold cleanup_outputs. destruct keep; simpl negb; unfold_monad.
  { exists w. repeat split; auto; try discriminate. }
  cleanup_cases;
    (eexists; split; [reflexivity|]); cleanup_cases.
  all: repeat split; try discriminate; try reflexivity.
  all: try (intros _ ? Heq Hcond;
            destruct Hcond as [Hc|(? & Hc & Hcond)];
            try discriminate Hc; try (injection Hc as <-);
            try (injection Heq as <-)).
  all: try (intros _ ? Heq; injection Heq as <-).
  all: cbn [files] in *; fs_facts; set_solver.
Qed.

(** The outer [finally]: the same, for the model file. *)
Lemma cleanup_model_spec (keep : bool) (mzn_file : str) (w : World) :
  exists w',
    cleanup_model keep mzn_file w = (w', Return tt) /\
    calls w' = calls w /\
    files w' ⊆ files w /\
    (keep = true -> w' = w) /\
    (keep = false -> isfile mzn_file (files w') = false) /\
    cleanup_model keep mzn_file w' = (w', Return tt).
Proof.
  unfold cleanup_model. destruct keep; simpl negb; unfold_monad.
  { exists w. repeat split; auto; try discriminate. }
  cleanup_cases;
    (eexists; split; [reflexivity|]); cleanup_cases.
  all: repeat split; try discriminate; try reflexivity.
  all: try intros _.
  all: cbn [files] in *; fs_facts; set_solver.
Qed.


Lemma isfile_diff_ne (p q : str) (fs : gset str) :
  p <> q -> isfile p (fs ∖ {[ q ]}) = isfile p fs.
Proof.
  intros Hne. unfold isfile. f_equal. apply bool_decide_ext.
  rewrite elem_of_difference, elem_of_singleton. tauto.
Qed.





(** ** Facts about the pipeline *)

Section PipelineFacts.

Context {Assignment Data : Type}.
Variable mzn2fzn_cmd solns2out_cmd : str.
Variable run_tool :
  Command -> option str -> gset str -> gset str * (str + str).
Variable fzn_fn : option str -> gset str -> gset str * Res str.
Variable model_adapter : bool -> gset str -> gset str * Res str.
Variable dzn : Data -> list str.
Variable parse_dzn : str -> Res Assignment.

Local Abbreviation mzn2fzn_ := (mzn2fzn mzn2fzn_cmd run_tool dzn).
Local Abbreviation solns2out_ := (solns2out solns2out_cmd run_tool).
Local Abbreviation solve_and_read_ :=
  (solve_and_read solns2out_cmd run_tool fzn_fn parse_dzn).
Local Abbreviation run_pipeline_ :=
  (run_pipeline mzn2fzn_cmd solns2out_cmd run_tool fzn_fn dzn parse_dzn).
Local Abbreviation minizinc_ :=
  (minizinc mzn2fzn_cmd solns2out_cmd run_tool fzn_fn model_adapter dzn
     parse_dzn).

(** The two candidate paths of [mzn2fzn]. *)
Local Abbreviation fzn_path mzn_file :=
  (join (lit ".") [splitext_root mzn_file; lit "fzn"]).
Local Abbreviation ozn_path mzn_file :=
  (join (lit ".") [splitext_root mzn_file; lit "ozn"]).

Lemma mzn2fzn_tool_failed (mzn_file : str) (data : option Data)
    (mzn_globals_dir : option str) (w : World) (fs : gset str)
    (err : str) :
  let args := mzn2fzn_args dzn mzn_file data mzn_globals_dir in
  run_tool (cmd mzn2fzn_cmd args) None (files w) = (fs, inl err) ->
  mzn2fzn_ mzn_file [] data mzn_globals_dir w =
  (mk_world fs (calls w ++ [CallRun (cmd mzn2fzn_cmd args) None])
     (log w ++ [LogCalling mzn2fzn_cmd args; LogException err]),
   Raise (new_RuntimeError err)).
Proof.
  intros args Htool. unfold mzn2fzn. fold args.
  unfold_monad. unfold log_record, run. cbn [files calls log].
  rewrite Htool. cbn. rewrite <- app_assoc. reflexivity.
Qed.

Lemma mzn2fzn_tool_ok (mzn_file : str) (data : option Data)
    (mzn_globals_dir : option str) (w : World) (fs : gset str)
    (out : str) :
  let args := mzn2fzn_args dzn mzn_file data mzn_globals_dir in
  run_tool (cmd mzn2fzn_cmd args) None (files w) = (fs, inr out) ->
  mzn2fzn_ mzn_file [] data mzn_globals_dir w =
  (mk_world fs (calls w ++ [CallRun (cmd mzn2fzn_cmd args) None])
     (log w ++ [LogCalling mzn2fzn_cmd args]),
   Return (if isfile (fzn_path mzn_file) fs
           then Some (fzn_path mzn_file) else None,
           if isfile (ozn_path mzn_file) fs
           then Some (ozn_path mzn_file) else None)).
Proof.
  intros args Htool. unfold mzn2fzn. fold args.
  unfold_monad. unfold log_record, run, os_path_isfile.
  cbn [files calls log]. rewrite Htool. reflexivity.
Qed.

Lemma mzn2fzn_tuple_raises (mzn_file d : str) (dzn_files : list str)
    (data : option Data) (mzn_globals_dir : option str) (w : World) :
  exists e,
    mzn2fzn_ mzn_file (d :: dzn_files) data mzn_globals_dir w
    = (w, Raise e) /\ exn_class e = TypeError.
Proof. eexists. split; reflexivity. Qed.

(** Whatever [mzn2fzn] raises on an empty [dzn_files] is the
    [RuntimeError] made of the tool's standard error. *)
Lemma mzn2fzn_raises (mzn_file : str) (data : option Data)
    (mzn_globals_dir : option str) (w : World) (e : exn) :
  result_of (mzn2fzn_ mzn_file [] data mzn_globals_dir) w = Raise e ->
  exists err,
    e = new_RuntimeError err /\
    snd (run_tool
           (cmd mzn2fzn_cmd (mzn2fzn_args dzn mzn_file data mzn_globals_dir))
           None (files w)) = inl err.
Proof.
  unfold result_of.
  destruct (run_tool
              (cmd mzn2fzn_cmd
                 (mzn2fzn_args dzn mzn_file data mzn_globals_dir))
              None (files w)) as [fs [err|out]] eqn:Htool.
  - rewrite (mzn2fzn_tool_failed _ _ _ _ _ _ Htool). cbn.
    intros [= <-]. exists err. split; reflexivity.
  - rewrite (mzn2fzn_tool_ok _ _ _ _ _ _ Htool). cbn. discriminate.
Qed.

(** What [solns2out] does with the tool's answer. *)
Lemma solns2out_run (solns_input : str) (ozn_file : option str)
    (w : World) :
  let c := cmd solns2out_cmd [arg_of ozn_file] in
  solns2out_ solns_input ozn_file w =
  match run_tool c (Some solns_input) (files w) with
  | (fs, inl err) =>
      (mk_world fs (calls w ++ [CallRun c (Some solns_input)])
         (log w ++ [LogCalling solns2out_cmd [arg_of ozn_file];
                    LogException err]),
       Raise (new_RuntimeError err))
  | (fs, inr out) =>
      (mk_world fs (calls w ++ [CallRun c (Some solns_input)])
         (log w ++ LogCalling solns2out_cmd [arg_of ozn_file]
                   :: scan_log (split NL out) []),
       scan_result (split NL out) [] [])
  end.
Proof.
  intros c. unfold solns2out. fold c.
  unfold_monad. unfold log_record, run. cbn [files calls log].
  destruct (run_tool c (Some solns_input) (files w)) as [fs [err|out]].
  - cbn. rewrite <- app_assoc. reflexivity.
  - unfold solns2out_scan. rewrite scan_run. cbn.
    rewrite <- app_assoc. reflexivity.
Qed.

Lemma scan_result_raises (lines : list str) :
  forall solns curr_out e,
    scan_result lines solns curr_out = Raise e ->
    isinstance e RuntimeError = true.
Proof.
  induction lines as [|l lines IH]; intros solns curr_out e; simpl.
  - discriminate.
  - destruct (kind_of l); try (intros [= <-]; reflexivity);
      try discriminate; apply IH.
Qed.

Lemma solns2out_raises (solns_input : str) (ozn_file : option str)
    (w : World) (e : exn) :
  result_of (solns2out_ solns_input ozn_file) w = Raise e ->
  isinstance e RuntimeError = true.
Proof.
  unfold result_of. rewrite solns2out_run.
  destruct (run_tool _ _ _) as [fs [err|out]]; cbn.
  - intros [= <-]. reflexivity.
  - apply scan_result_raises.
Qed.

(** [list(map(parse_dzn, out))] leaves the world as it is. *)
Lemma parse_all_world (out : list str) (w : World) :
  fst (parse_all parse_dzn out w) = w.
Proof.
  revert w. induction out as [|s out IH]; intros w; [reflexivity|].
  simpl. destruct (parse_dzn s); [|reflexivity].
  unfold_monad. specialize (IH w).
  destruct (parse_all parse_dzn out w) as [w' [r|e]]; exact IH.
Qed.

(** The invocations of [solve_and_read]: the solver function with the
    path it is given, then, if the solver returns, the reconstruction
    tool with the output-spec path. *)
Lemma solve_and_read_calls (fzn_file ozn_file : option str)
    (raw_output : bool) (w : World) :
  calls (world_after (solve_and_read_ fzn_file ozn_file raw_output) w) =
  calls w ++
    CallSolver fzn_file ::
    match snd (fzn_fn fzn_file (files w)) with
    | Return solns =>
        [CallRun (cmd solns2out_cmd [arg_of ozn_file]) (Some solns)]
    | Raise _ => []
    end.
Proof.
  unfold world_after, solve_and_read. unfold_monad.
  unfold call_fzn_fn at 1. cbn [files calls log].
  destruct (fzn_fn fzn_file (files w)) as [fs [solns|e]]; cbn [fst snd];
    [|reflexivity].
  rewrite solns2out_run. cbn [files calls log].
  destruct (run_tool _ _ _) as [fs' [err|out]].
  - cbn. rewrite <- app_assoc. reflexivity.
  - destruct (scan_result (split NL out) [] []) as [blocks|e].
    + destruct raw_output.
      * cbn. rewrite <- app_assoc. reflexivity.
      * match goal with
        | |- calls (fst (parse_all ?p ?o ?w0)) = _ =>
            rewrite (parse_all_world o w0)
        end.
        cbn. rewrite <- app_assoc. reflexivity.
    + cbn. rewrite <- app_assoc. reflexivity.
Qed.

(** C5: when the flattening tool exits non-zero, [minizinc] raises the
    [RuntimeError] whose message is the tool's standard error, unchanged;
    the only invocations of the run are the model adapter and the
    flattening tool, so neither the solver function nor the
    reconstruction tool is called; and the model file is gone afterwards
    unless [keep] was asked, in which case no file is removed. *)
Theorem stage1_failure_stops_pipeline (data : option Data)
    (keep raw_output : bool) (mzn_globals_dir : option str) (w : World)
    (fs0 fs1 : gset str) (mzn_file err : str) :
  let args := mzn2fzn_args dzn mzn_file data mzn_globals_dir in
  let run := minizinc_ [] data keep raw_output mzn_globals_dir in
  model_adapter raw_output (files w) = (fs0, Return mzn_file) ->
  run_tool (cmd mzn2fzn_cmd args) None fs0 = (fs1, inl err) ->
  result_of run w = Raise (new_RuntimeError err) /\
  exn_args (new_RuntimeError err) = [err] /\
  calls (world_after run w)
  = calls w ++ [CallModel raw_output; CallRun (cmd mzn2fzn_cmd args) None] /\
  (keep = false -> isfile mzn_file (files (world_after run w)) = false) /\
  (keep = true -> files (world_after run w) = fs1).
Proof.
  intros args run Hadapter Htool.
  unfold run, result_of, world_after, minizinc, run_pipeline.
  unfold_monad. unfold compile_model.
  cbn [files calls log]. rewrite Hadapter.
  rewrite (mzn2fzn_tool_failed mzn_file data mzn_globals_dir
             (mk_world fs0 (calls w ++ [CallModel raw_output]) (log w))
             fs1 err Htool).
  fold args. cbn [files calls log].
  match goal with
  | |- context [cleanup_model keep mzn_file ?w1] =>
      destruct (cleanup_model_spec keep mzn_file w1)
        as (w' & -> & Hcalls & Hsub & Hkeep & Hgone & _)
  end.
  cbn [fst snd files calls log] in *.
  split; [reflexivity|]. split; [reflexivity|].
  split; [rewrite Hcalls, <- app_assoc; reflexivity|].
  split; [exact Hgone|].
  intros Hk. rewrite (Hkeep Hk). reflexivity.
Qed.


(** C8, as amended: when the flattening tool exits with status zero,
    [mzn2fzn] returns each of the two candidate paths if the file exists
    and [None] if it does not, and raises nothing.  [solve_and_read]
    then calls the solver function with the first path and, if the
    solver returns, the reconstruction tool with the second, whether or
    not they are [None]; only the cleanup looks at a path before using
    it, and does nothing for [None]. *)
Theorem missing_artifact_is_none :
  (forall (mzn_file : str) (data : option Data)
          (mzn_globals_dir : option str) (w : World) (fs : gset str)
          (out : str),
      run_tool
        (cmd mzn2fzn_cmd (mzn2fzn_args dzn mzn_file data mzn_globals_dir))
        None (files w) = (fs, inr out) ->
      result_of (mzn2fzn_ mzn_file [] data mzn_globals_dir) w
      = Return (if isfile (fzn_path mzn_file) fs
                then Some (fzn_path mzn_file) else None,
                if isfile (ozn_path mzn_file) fs
                then Some (ozn_path mzn_file) else None)) /\
  (forall (fzn ozn : option str) (raw_output : bool) (w : World),
      calls (world_after (solve_and_read_ fzn ozn raw_output) w) =
      calls w ++
        CallSolver fzn ::
        match snd (fzn_fn fzn (files w)) with
        | Return solns =>
            [CallRun (cmd solns2out_cmd [arg_of ozn]) (Some solns)]
        | Raise _ => []
        end) /\
  (forall (keep : bool) (w : World),
      cleanup_outputs keep None None w = (w, Return tt)).
Proof.
  split; [|split].
  - intros mzn_file data mzn_globals_dir w fs out Htool.
    unfold result_of. rewrite (mzn2fzn_tool_ok _ _ _ _ _ _ Htool).
    reflexivity.
  - apply solve_and_read_calls.
  - intros [] w; reflexivity.
Qed.

(** C10: the three outcome errors are built without argument, carry a
    fixed message and are instances of [RuntimeError]; whatever
    [solns2out] raises, and whatever [mzn2fzn] raises once it reaches its
    tool, is an instance of [RuntimeError] too, the latter being the
    plain [RuntimeError] of the tool's standard error; so a handler for
    [RuntimeError] catches them all, and only the class tells them
    apart. *)
Theorem failures_are_runtime_errors :
  (isinstance new_MiniZincUnsatisfiableError RuntimeError = true /\
   isinstance new_MiniZincUnknownError RuntimeError = true /\
   isinstance new_MiniZincUnboundedError RuntimeError = true) /\
  (exn_args new_MiniZincUnsatisfiableError
   = [lit "The problem is unsatisfiable."] /\
   exn_args new_MiniZincUnknownError
   = [lit "The solution of the problem is unknown."] /\
   exn_args new_MiniZincUnboundedError
   = [lit "The problem is unbounded."]) /\
  (forall (solns_input : str) (ozn_file : option str) (w : World) (e : exn),
      result_of (solns2out_ solns_input ozn_file) w = Raise e ->
      isinstance e RuntimeError = true) /\
  (forall (mzn_file : str) (data : option Data)
          (mzn_globals_dir : option str) (w : World) (e : exn),
      result_of (mzn2fzn_ mzn_file [] data mzn_globals_dir) w = Raise e ->
      isinstance e RuntimeError = true /\
      exists err,
        e = new_RuntimeError err /\
        snd (run_tool
               (cmd mzn2fzn_cmd
                  (mzn2fzn_args dzn mzn_file data mzn_globals_dir))
               None (files w)) = inl err) /\
  (forall (A : Type) (body : M A) (handler : exn -> M A) (w w' : World)
          (e : exn),
      body w = (w', Raise e) ->
      isinstance e RuntimeError = true ->
      try_except body RuntimeError handler w = handler e w') /\
  NoDup [RuntimeError; MiniZincUnsatisfiableError; MiniZincUnknownError;
         MiniZincUnboundedError].
Proof.
  split; [repeat split|]. split; [repeat split|].
  split; [exact solns2out_raises|]. split; [|split].
  - intros mzn_file data mzn_globals_dir w e He.
    destruct (mzn2fzn_raises _ _ _ _ _ He) as (err & -> & Herr).
    split; [reflexivity|]. exists err. split; [reflexivity | exact Herr].
  - intros A body handler w w' e Hbody He.
    unfold try_except. rewrite Hbody, He. reflexivity.
  - apply (bool_decide_unpack _). vm_compute. exact I.
Qed.

End PipelineFacts.

(** ** The scenarios *)

Lemma stage1_failure_stops_pipeline_witness :
  result_of Scenario.failed_run Scenario.stale_world
  = Raise (new_RuntimeError (lit "m.mzn:1: syntax error")) /\
  calls (world_after Scenario.failed_run Scenario.stale_world)
  = [CallModel true;
     CallRun (cmd Scenario.mzn2fzn_cmd
                [ArgPair (lit "-G") (lit "gecode"); ArgStr (lit "m.mzn")])
       None] /\
  isfile (lit "m.mzn")
    (files (world_after Scenario.failed_run Scenario.stale_world)) = false.
Proof.
  destruct (stage1_failure_stops_pipeline
              Scenario.mzn2fzn_cmd Scenario.solns2out_cmd
              Scenario.failing_tools Scenario.solver Scenario.adapter
              Scenario.dzn Scenario.parse_dzn
              None false true Scenario.gecode Scenario.stale_world
              ({[ lit "m.mzn" ]} ∪ {[ lit "m.fzn" ]})
              ({[ lit "m.mzn" ]} ∪ {[ lit "m.fzn" ]})
              (lit "m.mzn") (lit "m.mzn:1: syntax error")
              eq_refl eq_refl)
    as (Hres & _ & Hcalls & Hgone & _).
  split; [exact Hres|]. split; [exact Hcalls | exact (Hgone eq_refl)].
Defined.



(** C8, as stated, fails: when the flattening writes neither file,
    [mzn2fzn] returns [None] for both, and the run goes on to call the
    solver function with [None] and the reconstruction tool with [None]
    as its output-spec argument; nothing looked at the paths first. *)
Lemma none_paths_are_used :
  result_of
    (mzn2fzn Scenario.mzn2fzn_cmd Scenario.silent_tools Scenario.dzn
       (lit "m.mzn") [] None Scenario.gecode)
    (Scenario.compiled Scenario.clean_world)
  = Return (None, None) /\
  CallSolver None ∈ calls (world_after Scenario.silent_run Scenario.clean_world) /\
  CallRun (cmd Scenario.solns2out_cmd [ArgNone])
    (Some (Scenario.text ["x = 1;"; "----------"; "=========="]%string))
  ∈ calls (world_after Scenario.silent_run Scenario.clean_world).
Proof.
  split; [vm_compute; reflexivity|].
  assert (Hcalls :
            calls (world_after Scenario.silent_run Scenario.clean_world)
            = [CallModel true;
               CallRun (cmd Scenario.mzn2fzn_cmd
                          [ArgPair (lit "-G") (lit "gecode");
                           ArgStr (lit "m.mzn")]) None;
               CallSolver None;
               CallRun (cmd Scenario.solns2out_cmd [ArgNone])
                 (Some (Scenario.text
                          ["x = 1;"; "----------"; "=========="]%string))])
    by (vm_compute; reflexivity).
  rewrite Hcalls. rewrite !elem_of_cons. auto 6.
Qed.

Lemma missing_artifact_is_none_witness :
  result_of
    (mzn2fzn Scenario.mzn2fzn_cmd Scenario.silent_tools Scenario.dzn
       (lit "m.mzn") [] None Scenario.gecode)
    (Scenario.compiled Scenario.clean_world)
  = Return (None, None).
Proof.
  exact (proj1 (missing_artifact_is_none (Assignment := str)
                  Scenario.mzn2fzn_cmd Scenario.solns2out_cmd
                  Scenario.silent_tools Scenario.solver Scenario.dzn
                  Scenario.parse_dzn)
           (lit "m.mzn") None Scenario.gecode
           (Scenario.compiled Scenario.clean_world)
           {[ lit "m.mzn" ]} [] eq_refl).
Defined.

Lemma failures_are_runtime_errors_witness :
  isinstance (new_RuntimeError (lit "m.mzn:1: syntax error")) RuntimeError
  = true /\
  isinstance new_MiniZincUnknownError RuntimeError = true.
Proof.
  split.
  - apply (proj1 (proj2 (proj2 (proj2 (failures_are_runtime_errors
                    Scenario.mzn2fzn_cmd Scenario.solns2out_cmd
                    Scenario.failing_tools Scenario.dzn))))
             (lit "m.mzn") None Scenario.gecode
             (Scenario.compiled Scenario.clean_world)
             (new_RuntimeError (lit "m.mzn:1: syntax error"))).
    vm_compute. reflexivity.
  - apply (proj1 (proj2 (proj2 (failures_are_runtime_errors
                    Scenario.mzn2fzn_cmd Scenario.solns2out_cmd
                    Scenario.working_tools Scenario.dzn)))
             (Scenario.text ["=====UNKNOWN====="]%string) None
             Scenario.clean_world new_MiniZincUnknownError).
    vm_compute. reflexivity.
Defined.

(** ** More about stripping *)

Lemma lstrip_app_spaces (ws s : str) :
  forallb is_space ws = true -> lstrip (ws ++ s) = lstrip s.
Proof.
  induction ws as [|c ws IH]; simpl; [reflexivity|].
  intros [Hc Hws]%andb_true_iff. rewrite Hc. auto.
Qed.

Lemma lstrip_nil_spaces (s : str) : lstrip s = [] -> forallb is_space s = true.
Proof.
  induction s as [|c s IH]; simpl; [reflexivity|].
  destruct (is_space c); [exact IH | discriminate].
Qed.

Lemma lstrip_nil_iff (s : str) : lstrip s = [] <-> forallb is_space s = true.
Proof. split; [apply lstrip_nil_spaces | apply lstrip_all_space]. Qed.

(** What [lstrip] leaves is empty or starts with a character that is not
    whitespace. *)
Lemma lstrip_head (s : str) :
  lstrip s = [] \/ exists c t, lstrip s = c :: t /\ is_space c = false.
Proof.
  induction s as [|c s IH]; simpl; [left; reflexivity|].
  destruct (is_space c) eqn:Hc; [exact IH|].
  right. exists c, s. split; [reflexivity | exact Hc].
Qed.

Lemma lstrip_fixed (c : char) (t : str) :
  is_space c = false -> lstrip (c :: t) = c :: t.
Proof. intros Hc. simpl. rewrite Hc. reflexivity. Qed.

Lemma lstrip_idem (s : str) : lstrip (lstrip s) = lstrip s.
Proof.
  destruct (lstrip_head s) as [->|(c & t & -> & Hc)]; [reflexivity|].
  apply lstrip_fixed, Hc.
Qed.

Lemma lstrip_app_keeps (s t : str) :
  lstrip s <> [] -> lstrip (s ++ t) = lstrip s ++ t.
Proof.
  induction s as [|c s IH]; simpl; [congruence|].
  destruct (is_space c); [exact IH | reflexivity].
Qed.

Lemma rstrip_app_spaces (s ws : str) :
  forallb is_space ws = true -> rstrip (s ++ ws) = rstrip s.
Proof.
  intros Hws. unfold rstrip. rewrite rev_app_distr.
  rewrite lstrip_app_spaces; [reflexivity|].
  rewrite forallb_forall in *. intros x Hx. apply Hws, in_rev, Hx.
Qed.

Lemma rstrip_idem (s : str) : rstrip (rstrip s) = rstrip s.
Proof. unfold rstrip. rewrite rev_involutive, lstrip_idem. reflexivity. Qed.

(** What [rstrip] leaves of a text that starts with a character that is
    not whitespace still starts with it. *)
Lemma rstrip_keeps_head (c : char) (t : str) :
  is_space c = false -> exists u, rstrip (c :: t) = c :: u.
Proof.
  intros Hc. unfold rstrip. simpl rev.
  destruct (lstrip (rev t)) as [|d r] eqn:Hr.
  - rewrite lstrip_app_spaces by (apply lstrip_nil_spaces, Hr).
    rewrite (lstrip_fixed c [] Hc). exists []. reflexivity.
  - rewrite lstrip_app_keeps by congruence. rewrite Hr.
    rewrite rev_app_distr. simpl. eexists. reflexivity.
Qed.

(** Stripping twice is stripping once. *)
Lemma strip_idem (s : str) : strip (strip s) = strip s.
Proof.
  unfold strip.
  destruct (lstrip_head s) as [->|(c & t & -> & Hc)]; [reflexivity|].
  destruct (rstrip_keeps_head c t Hc) as [u Hu].
  rewrite Hu at 1. rewrite (lstrip_fixed c u Hc), <- Hu.
  apply rstrip_idem.
Qed.

(** Whitespace added at either end of a text is stripped with the
    rest. *)
Lemma strip_pad (ws1 l ws2 : str) :
  forallb is_space ws1 = true -> forallb is_space ws2 = true ->
  strip (ws1 ++ l ++ ws2) = strip l.
Proof.
  intros H1 H2. unfold strip. rewrite (lstrip_app_spaces ws1 _ H1).
  destruct (lstrip l) as [|c t] eqn:Hl.
  - rewrite lstrip_app_spaces by (apply lstrip_nil_spaces, Hl).
    rewrite (proj2 (lstrip_nil_iff ws2) H2). reflexivity.
  - rewrite lstrip_app_keeps by congruence. rewrite Hl.
    apply rstrip_app_spaces, H2.
Qed.

Lemma elem_of_lstrip (x : char) (s : str) : x ∈ lstrip s -> x ∈ s.
Proof.
  induction s as [|c s IH]; simpl; [auto|].
  destruct (is_space c); [|auto].
  intros H. apply elem_of_cons. right. apply IH, H.
Qed.

Lemma elem_of_strip (x : char) (s : str) : x ∈ strip s -> x ∈ s.
Proof.
  unfold strip, rstrip. intros H.
  apply list_elem_of_In, in_rev, list_elem_of_In in H.
  apply elem_of_lstrip in H.
  apply list_elem_of_In, in_rev, list_elem_of_In in H.
  apply elem_of_lstrip, H.
Qed.

Lemma kind_of_strip_eq (l l' : str) :
  strip l = strip l' -> kind_of l = kind_of l'.
Proof. intros H. unfold kind_of. rewrite H. reflexivity. Qed.

(** ** More about the line scan *)

(** The loop sees a line only through its stripped text. *)
Lemma scan_strip_invariant (ls : list str) :
  forall ls' solns curr_out,
    List.map strip ls = List.map strip ls' ->
    scan_result ls solns curr_out = scan_result ls' solns curr_out /\
    scan_log ls curr_out = scan_log ls' curr_out.
Proof.
  induction ls as [|l ls IH]; intros [|l' ls'] solns curr_out H;
    try discriminate; [split; reflexivity|].
  injection H as Hl Hls. simpl.
  rewrite (kind_of_strip_eq l l' Hl), Hl.
  destruct (kind_of l'); try (split; reflexivity).
  - destruct (IH ls' (solns ++ [join [NL] curr_out]) [] Hls) as [-> ->].
    split; reflexivity.
  - apply IH, Hls.
Qed.

(** X1: the scan depends on a line only through its stripped text: two
    texts whose lines strip to the same texts give the same outcome and
    the same world.  Indentation, trailing blanks or a carriage return
    at the end of any line, a sentinel line included, change nothing. *)
Theorem scan_sees_stripped_lines (out out' : str) (w : World) :
  List.map strip (split NL out) = List.map strip (split NL out') ->
  solns2out_scan out w = solns2out_scan out' w.
Proof.
  intros H. unfold solns2out_scan. rewrite !scan_run.
  destruct (scan_strip_invariant _ _ [] [] H) as [-> ->]. reflexivity.
Qed.

Lemma scan_sees_stripped_lines_witness :
  solns2out_scan
    (lit "x = 1;" ++ [NL] ++ lit "----------" ++ [NL] ++ lit "==========")
    Scenario.empty_world
  = solns2out_scan
      (lit "  x = 1; " ++ [13%N; NL] ++ lit " ----------" ++ [13%N; NL]
         ++ lit "==========" ++ [13%N])
      Scenario.empty_world.
Proof.
  apply scan_sees_stripped_lines. vm_compute. reflexivity.
Defined.

Lemma closed_blocks_lines (closed : list str) (blocks : list (list str)) :
  closed_by_separators closed blocks ->
  forall b l, b ∈ blocks -> l ∈ b -> l ∈ closed /\ kind_of l = Content.
Proof.
  induction 1 as [|b0 sp rest bs Hb Hsp _ IH]; intros b l Hin Hl.
  - apply elem_of_nil in Hin. contradiction.
  - apply elem_of_cons in Hin as [->|Hin].
    + split; [apply elem_of_app; left; exact Hl|].
      rewrite Forall_forall in Hb. apply Hb, Hl.
    + destruct (IH b l Hin Hl) as [Hc Hk]. split; [|exact Hk].
      apply elem_of_app. right. apply elem_of_cons. right. exact Hc.
Qed.

(** A scan that returns has read closed blocks and then a quiet end. *)
Lemma scan_return_inv (out : str) (w : World) (solns : list str) :
  result_of (solns2out_scan out) w = Return solns ->
  exists closed blocks rest,
    split NL out = closed ++ rest /\
    closed_by_separators closed blocks /\
    ends_quietly rest /\
    solns = List.map block_text blocks.
Proof.
  intros Hres.
  destruct (stream_shape (split NL out))
    as (closed & blocks & rest & Hsplit & Hclosed & Hrest).
  exists closed, blocks, rest.
  destruct Hrest as [Hq|(open & l & post & e & -> & Hopen & He)].
  - rewrite (scan_closed_then_quiet out closed blocks rest w Hsplit Hclosed Hq)
      in Hres.
    injection Hres as <-. auto.
  - rewrite solns2out_scan_result, Hsplit in Hres.
    rewrite (scan_result_closed closed blocks Hclosed) in Hres.
    rewrite (scan_result_content open Hopen) in Hres.
    rewrite (scan_result_fatal l e post He) in Hres. discriminate.
Qed.

(** X2: every line of every solution the scan returns is a stripped
    content line: it has no whitespace at either end and is none of the
    five sentinels. *)
Theorem solutions_hold_content_lines (out : str) (w : World)
    (solns : list str) (soln line : str) :
  result_of (solns2out_scan out) w = Return solns ->
  soln ∈ solns ->
  line ∈ split NL soln ->
  strip line = line /\ kind_of line = Content.
Proof.
  intros Hres Hsoln Hline.
  destruct (scan_return_inv out w solns Hres)
    as (closed & blocks & rest & Hsplit & Hclosed & _ & ->).
  apply list_elem_of_In, in_map_iff in Hsoln as (b & <- & Hb).
  apply list_elem_of_In in Hb.
  destruct b as [|l0 b].
  { apply list_elem_of_singleton in Hline as ->. split; reflexivity. }
  unfold block_text in Hline. rewrite split_join in Hline.
  - apply list_elem_of_In, in_map_iff in Hline as (l & <- & Hl).
    destruct (closed_blocks_lines closed blocks Hclosed _ l Hb
                (proj2 (list_elem_of_In _ _) Hl)) as [_ Hk].
    split; [apply strip_idem|].
    rewrite <- Hk. apply kind_of_strip_eq, strip_idem.
  - discriminate.
  - apply Forall_forall. intros s Hs.
    apply list_elem_of_In, in_map_iff in Hs as (l & <- & Hl). intros Hnl.
    destruct (closed_blocks_lines closed blocks Hclosed _ l Hb
                (proj2 (list_elem_of_In _ _) Hl)) as [Hc _].
    pose proof (split_pieces_no_sep NL out) as Hno.
    rewrite Hsplit, Forall_forall in Hno.
    apply (Hno l); [|apply elem_of_strip, Hnl].
    apply elem_of_app. left. exact Hc.
Qed.

Lemma solutions_hold_content_lines_witness :
  strip (lit "y = 2;") = lit "y = 2;" /\ kind_of (lit "y = 2;") = Content.
Proof.
  apply (solutions_hold_content_lines Scenario.two_solutions
           Scenario.empty_world
           [lit "x = 1;" ++ [NL] ++ lit "y = 2;"; lit "x = 3;"]
           (lit "x = 1;" ++ [NL] ++ lit "y = 2;") (lit "y = 2;")).
  - vm_compute. reflexivity.
  - apply (bool_decide_unpack _). vm_compute. exact I.
  - apply (bool_decide_unpack _). vm_compute. exact I.
Defined.

Lemma scan_result_passing (pre : list str) :
  Forall (fun p => kind_of p = Content \/ kind_of p = Separator) pre ->
  forall rest solns curr_out,
  exists new curr_out',
    scan_result (pre ++ rest) solns curr_out
    = scan_result rest (solns ++ new) curr_out' /\
    length new = length (filter (fun l => kind_of l = Separator) pre).
Proof.
  induction 1 as [|p pre Hp _ IH]; intros rest solns curr_out.
  - exists [], curr_out. rewrite app_nil_r. split; reflexivity.
  - simpl app. simpl scan_result. destruct Hp as [Hp|Hp]; rewrite Hp.
    + destruct (IH rest solns (curr_out ++ [strip p])) as (new & c' & -> & Hn).
      exists new, c'. split; [reflexivity|].
      rewrite filter_cons_False by congruence. exact Hn.
    + destruct (IH rest (solns ++ [join [NL] curr_out]) [])
        as (new & c' & -> & Hn).
      exists (join [NL] curr_out :: new), c'.
      split; [rewrite <- app_assoc; reflexivity|].
      rewrite filter_cons_True by exact Hp. simpl. rewrite Hn. reflexivity.
Qed.

(** X3: when the lines read before the end of the text, or before a
    [==========] line, are content and separator lines, the scan returns
    as many solutions as there are separator lines among them. *)
Theorem one_solution_per_separator (out : str) (pre rest : list str)
    (w : World) :
  split NL out = pre ++ rest ->
  Forall (fun p => kind_of p = Content \/ kind_of p = Separator) pre ->
  match rest with [] => True | l :: _ => kind_of l = Complete end ->
  exists solns,
    result_of (solns2out_scan out) w = Return solns /\
    length solns = length (filter (fun l => kind_of l = Separator) pre).
Proof.
  intros Hsplit Hpre Hrest.
  rewrite solns2out_scan_result, Hsplit.
  destruct (scan_result_passing pre Hpre rest [] []) as (new & c' & -> & Hn).
  exists new. split; [|exact Hn].
  destruct rest as [|l rest]; simpl; [reflexivity|].
  rewrite Hrest. reflexivity.
Qed.

Lemma one_solution_per_separator_witness :
  exists solns,
    result_of (solns2out_scan Scenario.truncated) Scenario.empty_world
    = Return solns /\
    length solns = 3.
Proof.
  apply (one_solution_per_separator Scenario.truncated
           [lit "a"; lit "----------"; lit "----------";
            lit "b"; lit "   "; lit "c"; lit "----------"; lit "d"] []
           Scenario.empty_world).
  - vm_compute. reflexivity.
  - repeat (constructor;
            [first [left; vm_compute; reflexivity
                   |right; vm_compute; reflexivity]|]).
    constructor.
  - exact I.
Defined.

(** The solutions found so far are only ever extended. *)
Lemma scan_result_acc (lines : list str) :
  forall solns curr_out,
    scan_result lines solns curr_out =
    match scan_result lines [] curr_out with
    | Return found => Return (solns ++ found)
    | Raise e => Raise e
    end.
Proof.
  induction lines as [|l lines IH]; intros solns curr_out; simpl.
  - rewrite app_nil_r. reflexivity.
  - destruct (kind_of l); try reflexivity.
    + rewrite (IH (solns ++ [join [NL] curr_out])).
      rewrite (IH ([] ++ [join [NL] curr_out])).
      destruct (scan_result lines [] []); [|reflexivity].
      rewrite <- app_assoc. reflexivity.
    + rewrite app_nil_r. reflexivity.
    + apply IH.
Qed.

(** X4: the scan composes at a separator: for a text whose first lines
    are blocks closed by separators, the outcome is the outcome of the
    scan of the remaining lines, with the texts of those blocks put in
    front of its solutions; a failure of the remainder is the failure of
    the whole. *)
Theorem scan_composes_at_separator (out : str) (closed rest : list str)
    (blocks : list (list str)) (w : World) :
  split NL out = closed ++ rest ->
  rest <> [] ->
  closed_by_separators closed blocks ->
  result_of (solns2out_scan out) w =
  match result_of (solns2out_scan (join [NL] rest)) w with
  | Return solns => Return (List.map block_text blocks ++ solns)
  | Raise e => Raise e
  end.
Proof.
  intros Hsplit Hrest Hclosed.
  rewrite !solns2out_scan_result, Hsplit.
  rewrite (scan_result_closed closed blocks Hclosed).
  rewrite split_join.
  - apply (scan_result_acc rest (List.map block_text blocks) []).
  - exact Hrest.
  - pose proof (split_pieces_no_sep NL out) as Hno.
    rewrite Hsplit in Hno. apply Forall_app in Hno as [_ Hno]. exact Hno.
Qed.

Lemma scan_composes_at_separator_witness :
  result_of (solns2out_scan Scenario.solution_then_unknown)
    Scenario.empty_world =
  match result_of (solns2out_scan (join [NL] [lit "=====UNKNOWN====="]))
          Scenario.empty_world with
  | Return solns => Return (List.map block_text [[lit "a"]] ++ solns)
  | Raise e => Raise e
  end.
Proof.
  apply (scan_composes_at_separator Scenario.solution_then_unknown
           [lit "a"; lit "----------"] [lit "=====UNKNOWN====="]
           [[lit "a"]] Scenario.empty_world).
  - vm_compute. reflexivity.
  - discriminate.
  - apply (closed_block [lit "a"] (lit "----------") []).
    + constructor; [vm_compute; reflexivity | constructor].
    + vm_compute. reflexivity.
    + constructor.
Defined.

Lemma scan_log_found (lines : list str) :
  forall solns curr_out found,
    scan_result lines solns curr_out = Return found ->
    exists new,
      found = solns ++ new /\
      scan_log lines curr_out = List.map LogSolutionFound new.
Proof.
  induction lines as [|l lines IH]; intros solns curr_out found; simpl.
  - intros [= <-]. exists []. rewrite app_nil_r. split; reflexivity.
  - destruct (kind_of l); try discriminate.
    + intros H. destruct (IH _ _ _ H) as (new & -> & ->).
      exists (join [NL] curr_out :: new).
      rewrite <- app_assoc. split; reflexivity.
    + intros [= <-]. exists []. rewrite app_nil_r. split; reflexivity.
    + apply IH.
Qed.

(** X5: when the scan returns, the records it has handed to the logger
    are the solutions it returns, one [Solution found] record for each,
    in the same order, and nothing else. *)
Theorem returned_solutions_are_logged (out : str) (w : World)
    (solns : list str) :
  result_of (solns2out_scan out) w = Return solns ->
  log (world_after (solns2out_scan out) w)
  = log w ++ List.map LogSolutionFound solns.
Proof.
  intros Hres. rewrite solns2out_scan_result in Hres.
  destruct (scan_log_found _ _ _ _ Hres) as (new & -> & Hlog).
  unfold world_after, solns2out_scan. rewrite scan_run. cbn.
  rewrite Hlog. reflexivity.
Qed.

Lemma returned_solutions_are_logged_witness :
  log (world_after (solns2out_scan Scenario.two_solutions)
         Scenario.empty_world)
  = [] ++ List.map LogSolutionFound
            [lit "x = 1;" ++ [NL] ++ lit "y = 2;"; lit "x = 3;"].
Proof.
  apply (returned_solutions_are_logged Scenario.two_solutions
           Scenario.empty_world).
  vm_compute. reflexivity.
Defined.

Lemma kind_of_error_inv (l : str) (e : exn) :
  error_of (kind_of l) = Some e -> (strip l, e) ∈ fatal_sentinels.
Proof.
  unfold kind_of, str_eqb, fatal_sentinels.
  repeat case_bool_decide; simpl; try discriminate;
    intros [= <-];
    match goal with H : strip l = _ |- _ => rewrite H end;
    rewrite !elem_of_cons; auto.
Qed.

Lemma scan_result_raise_inv (lines : list str) :
  forall solns curr_out e,
    scan_result lines solns curr_out = Raise e ->
    exists l, l ∈ lines /\ error_of (kind_of l) = Some e.
Proof.
  induction lines as [|l lines IH]; intros solns curr_out e; simpl.
  - discriminate.
  - destruct (kind_of l) eqn:Hk; try discriminate;
      try (intros [= <-]; exists l; rewrite Hk;
           split; [apply elem_of_cons; left|]; reflexivity);
      intros H; destruct (IH _ _ _ H) as (l' & Hin & He);
      exists l'; (split; [apply elem_of_cons; right; exact Hin | exact He]).
Qed.

(** X6: the scan raises nothing but the three outcome errors, and raises
    one only if the text holds a line that strips to its sentinel. *)
Theorem scan_raises_only_on_sentinel (out : str) (w : World) (e : exn) :
  result_of (solns2out_scan out) w = Raise e ->
  exists l,
    l ∈ split NL out /\ (strip l, e) ∈ fatal_sentinels.
Proof.
  intros Hres. rewrite solns2out_scan_result in Hres.
  destruct (scan_result_raise_inv _ _ _ _ Hres) as (l & Hin & He).
  exists l. split; [exact Hin | apply kind_of_error_inv, He].
Qed.

Lemma scan_raises_only_on_sentinel_witness :
  exists l,
    l ∈ split NL Scenario.unsat_then_more /\
    (strip l, new_MiniZincUnsatisfiableError) ∈ fatal_sentinels.
Proof.
  apply (scan_raises_only_on_sentinel Scenario.unsat_then_more
           Scenario.empty_world).
  vm_compute. reflexivity.
Defined.

(** ** More about paths *)

Lemma rfind_from_absent (c : char) (s : str) :
  c ∉ s -> forall i found, rfind_from i c s found = found.
Proof.
  induction s as [|x s IH]; intros Hs i found; simpl; [reflexivity|].
  apply not_elem_of_cons in Hs as [Hx Hs].
  destruct (N.eqb_spec x c) as [->|_]; [congruence|]. apply IH, Hs.
Qed.

Lemma rfind_from_app (c : char) (a b : str) :
  forall i found,
    rfind_from i c (a ++ b) found
    = rfind_from (i + Z.of_nat (length a)) c b (rfind_from i c a found).
Proof.
  induction a as [|x a IH]; intros i found; simpl.
  - rewrite Z.add_0_r. reflexivity.
  - rewrite IH. f_equal. lia.
Qed.

(** [s.rfind(c)] when the last [c] is known. *)
Lemma rfind_last (c : char) (a b : str) :
  c ∉ b -> rfind c (a ++ c :: b) = Z.of_nat (length a).
Proof.
  intros Hb. unfold rfind. rewrite rfind_from_app. simpl.
  rewrite N.eqb_refl. rewrite rfind_from_absent by exact Hb. lia.
Qed.

Lemma rfind_absent (c : char) (s : str) : c ∉ s -> rfind c s = (-1)%Z.
Proof. intros Hs. apply rfind_from_absent, Hs. Qed.

Lemma rfind_from_bound (c : char) (s : str) :
  forall i found,
    (found < i)%Z ->
    (rfind_from i c s found < i + Z.of_nat (length s))%Z.
Proof.
  induction s as [|x s IH]; intros i found Hlt; simpl length.
  - simpl. lia.
  - simpl rfind_from.
    specialize (IH (i + 1)%Z (if N.eqb x c then i else found)).
    destruct (N.eqb x c); lia.
Qed.

(** The index after the last slash of [dir ++ rest], for a [dir] that is
    empty or ends with a slash and a [rest] without slash. *)
Lemma rfind_slash_dir (dir rest : str) :
  dir = [] \/ (exists d, dir = d ++ [SLASH]) ->
  SLASH ∉ rest ->
  (rfind SLASH (dir ++ rest) + 1)%Z = Z.of_nat (length dir).
Proof.
  intros [->|[d ->]] Hrest.
  - simpl. rewrite rfind_absent by exact Hrest. reflexivity.
  - rewrite <- app_assoc. simpl. rewrite rfind_last by exact Hrest.
    rewrite length_app. simpl. lia.
Qed.

(** The root of [dir/name.ext] is [dir/name], for a name that is not
    made of dots alone and an extension without dot. *)
Lemma splitext_root_stem (dir name ext : str) :
  dir = [] \/ (exists d, dir = d ++ [SLASH]) ->
  SLASH ∉ name -> (exists c, c ∈ name /\ c <> DOT) ->
  DOT ∉ ext -> SLASH ∉ ext ->
  splitext_root (dir ++ name ++ DOT :: ext) = dir ++ name.
Proof.
  intros Hdir Hname (c & Hc & Hcdot) Hext Hext'.
  unfold splitext_root.
  assert (Hsep : (rfind SLASH (dir ++ name ++ DOT :: ext) + 1)%Z
                 = Z.of_nat (length dir)).
  { apply rfind_slash_dir; [exact Hdir|].
    rewrite elem_of_app, elem_of_cons. intros [H|[H|H]]; auto.
    discriminate H. }
  assert (Hdot : rfind DOT (dir ++ name ++ DOT :: ext)
                 = Z.of_nat (length (dir ++ name))).
  { rewrite app_assoc. apply rfind_last, Hext. }
  rewrite Hsep, Hdot, !Nat2Z.id.
  rewrite length_app in Hdot.
  destruct (Z.ltb_spec (rfind SLASH (dir ++ name ++ DOT :: ext))
              (Z.of_nat (length (dir ++ name)))) as [_|Hge];
    [|rewrite length_app in Hge; lia].
  rewrite (app_assoc dir name), take_app_length, drop_app_length.
  destruct (forallb (N.eqb DOT) name) eqn:Hall; [|reflexivity].
  rewrite forallb_forall in Hall.
  apply list_elem_of_In, Hall, N.eqb_eq in Hc. congruence.
Qed.

(** The root of a path whose last component has no dot, or dots at its
    start only, is the path itself. *)
Lemma splitext_root_whole (dir dots rest : str) :
  dir = [] \/ (exists d, dir = d ++ [SLASH]) ->
  forallb (N.eqb DOT) dots = true ->
  DOT ∉ rest -> SLASH ∉ rest ->
  splitext_root (dir ++ dots ++ rest) = dir ++ dots ++ rest.
Proof.
  intros Hdir Hdots Hrest Hrest'.
  unfold splitext_root.
  assert (Hnoslash : SLASH ∉ dots ++ rest).
  { rewrite elem_of_app. intros [H|H]; [|auto].
    rewrite forallb_forall in Hdots.
    apply list_elem_of_In, Hdots, N.eqb_eq in H. discriminate H. }
  pose proof (rfind_slash_dir dir (dots ++ rest) Hdir Hnoslash) as Hsep.
  destruct (Z.ltb_spec (rfind SLASH (dir ++ dots ++ rest))
              (rfind DOT (dir ++ dots ++ rest))) as [Hlt|_];
    [|reflexivity].
  rewrite Hsep, Nat2Z.id.
  match goal with
  | |- (if forallb _ ?before then _ else _) = _ =>
      assert (Hall : forallb (N.eqb DOT) before = true)
  end; [|rewrite Hall; reflexivity].
  apply forallb_forall. intros x Hx.
  destruct dots as [|d0 dots' _] using rev_ind.
  - exfalso. simpl in *.
    destruct Hdir as [->|[d ->]].
    + simpl in *. rewrite (rfind_absent DOT rest Hrest) in Hlt.
      rewrite (rfind_absent SLASH rest Hrest') in Hlt. lia.
    + rewrite <- app_assoc in Hlt. simpl in Hlt.
      rewrite (rfind_last SLASH d rest Hrest') in Hlt.
      unfold rfind in Hlt. rewrite rfind_from_app in Hlt. simpl in Hlt.
      rewrite (rfind_from_absent DOT rest Hrest) in Hlt.
      pose proof (rfind_from_bound DOT d 0 (-1) ltac:(lia)) as Hb.
      change (N.eqb SLASH DOT) with false in Hlt. cbv iota in Hlt. lia.
  - assert (Hd0 : d0 = DOT).
    { rewrite forallb_app in Hdots.
      apply andb_true_iff in Hdots as [_ H]. cbn [forallb] in H.
      rewrite andb_true_r in H. apply N.eqb_eq in H. congruence. }
    subst d0.
    assert (Hdot : rfind DOT (dir ++ (dots' ++ [DOT]) ++ rest)
                   = Z.of_nat (length (dir ++ dots'))).
    { rewrite <- (app_assoc dots'), (app_assoc dir). simpl.
      apply rfind_last, Hrest. }
    rewrite Hdot, Nat2Z.id in Hx.
    rewrite <- (app_assoc dots'), (app_assoc dir) in Hx.
    rewrite take_app_length, drop_app_length in Hx.
    rewrite forallb_app in Hdots. apply andb_true_iff in Hdots as [H _].
    rewrite forallb_forall in H. apply H, Hx.
Qed.

(** ** More about the pipeline *)

Section PipelineMore.

Context {Assignment Data : Type}.
Variable mzn2fzn_cmd solns2out_cmd : str.
Variable run_tool :
  Command -> option str -> gset str -> gset str * (str + str).
Variable fzn_fn : option str -> gset str -> gset str * Res str.
Variable model_adapter : bool -> gset str -> gset str * Res str.
Variable dzn : Data -> list str.
Variable parse_dzn : str -> Res Assignment.

Local Abbreviation mzn2fzn_ := (mzn2fzn mzn2fzn_cmd run_tool dzn).
Local Abbreviation solns2out_ := (solns2out solns2out_cmd run_tool).
Local Abbreviation solve_and_read_ :=
  (solve_and_read solns2out_cmd run_tool fzn_fn parse_dzn).
Local Abbreviation minizinc_ :=
  (minizinc mzn2fzn_cmd solns2out_cmd run_tool fzn_fn model_adapter dzn
     parse_dzn).

(** X7: for a model path [dir/name.ext], where [name] is not made of
    dots alone and [ext] has no dot, once the flattening tool has exited
    with status zero [mzn2fzn] reports [dir/name.fzn] and [dir/name.ozn],
    each if it names a file and [None] otherwise. *)
Theorem mzn2fzn_looks_beside_model (dir name ext : str)
    (data : option Data) (mzn_globals_dir : option str) (w : World)
    (fs : gset str) (out : str) :
  let mzn_file := dir ++ name ++ DOT :: ext in
  dir = [] \/ (exists d, dir = d ++ [SLASH]) ->
  SLASH ∉ name -> (exists c, c ∈ name /\ c <> DOT) ->
  DOT ∉ ext -> SLASH ∉ ext ->
  run_tool (cmd mzn2fzn_cmd (mzn2fzn_args dzn mzn_file data mzn_globals_dir))
    None (files w) = (fs, inr out) ->
  result_of (mzn2fzn_ mzn_file [] data mzn_globals_dir) w
  = Return
      (if isfile (dir ++ name ++ lit ".fzn") fs
       then Some (dir ++ name ++ lit ".fzn") else None,
       if isfile (dir ++ name ++ lit ".ozn") fs
       then Some (dir ++ name ++ lit ".ozn") else None).
Proof.
  intros mzn_file Hdir Hname Hdots Hext Hext' Htool.
  unfold result_of. rewrite (mzn2fzn_tool_ok _ _ _ _ _ _ _ _ _ Htool).
  unfold mzn_file. rewrite (splitext_root_stem dir name ext) by assumption.
  cbn [snd join]. rewrite <- !app_assoc. reflexivity.
Qed.

(** X8: for a model path whose last component has no dot, or dots at
    its start only, [mzn2fzn] adds [.fzn] and [.ozn] to the whole path. *)
Theorem mzn2fzn_appends_to_bare_name (dir dots rest : str)
    (data : option Data) (mzn_globals_dir : option str) (w : World)
    (fs : gset str) (out : str) :
  let mzn_file := dir ++ dots ++ rest in
  dir = [] \/ (exists d, dir = d ++ [SLASH]) ->
  forallb (N.eqb DOT) dots = true ->
  DOT ∉ rest -> SLASH ∉ rest ->
  run_tool (cmd mzn2fzn_cmd (mzn2fzn_args dzn mzn_file data mzn_globals_dir))
    None (files w) = (fs, inr out) ->
  result_of (mzn2fzn_ mzn_file [] data mzn_globals_dir) w
  = Return
      (if isfile (mzn_file ++ lit ".fzn") fs
       then Some (mzn_file ++ lit ".fzn") else None,
       if isfile (mzn_file ++ lit ".ozn") fs
       then Some (mzn_file ++ lit ".ozn") else None).
Proof.
  intros mzn_file Hdir Hdots Hrest Hrest' Htool.
  unfold result_of. rewrite (mzn2fzn_tool_ok _ _ _ _ _ _ _ _ _ Htool).
  unfold mzn_file. rewrite (splitext_root_whole dir dots rest) by assumption.
  reflexivity.
Qed.

(** X9: called with one or more dzn files, [mzn2fzn] raises [TypeError]
    before it logs or runs anything: the world is left as it was. *)
Theorem mzn2fzn_rejects_dzn_files (mzn_file : str) (dzn_files : list str)
    (data : option Data) (mzn_globals_dir : option str) (w : World) :
  dzn_files <> [] ->
  world_after (mzn2fzn_ mzn_file dzn_files data mzn_globals_dir) w = w /\
  exists e,
    result_of (mzn2fzn_ mzn_file dzn_files data mzn_globals_dir) w = Raise e /\
    exn_class e = TypeError /\
    isinstance e RuntimeError = false.
Proof.
  intros Hne. destruct dzn_files as [|d dzn_files]; [congruence|].
  split; [reflexivity|]. eexists. repeat split.
Qed.

Lemma mzn2fzn_reported_truthy (mzn_file : str) (dzn_files : list str)
    (data : option Data) (mzn_globals_dir : option str) (w w' : World)
    (f : str) (ozn : option str) :
  mzn2fzn_ mzn_file dzn_files data mzn_globals_dir w
  = (w', Return (Some f, ozn)) ->
  truthy f = true.
Proof.
  destruct dzn_files as [|d dzn_files]; [|discriminate].
  destruct (run_tool
              (cmd mzn2fzn_cmd
                 (mzn2fzn_args dzn mzn_file data mzn_globals_dir))
              None (files w)) as [fs [err|out]] eqn:Htool.
  { rewrite (mzn2fzn_tool_failed _ _ _ _ _ _ _ _ _ Htool). discriminate. }
  rewrite (mzn2fzn_tool_ok _ _ _ _ _ _ _ _ _ Htool).
  destruct (isfile (join (lit ".") [splitext_root mzn_file; lit "fzn"]) fs)
    eqn:Hf; [|discriminate].
  intros H. apply (f_equal snd) in H. cbn [snd] in H.
  injection H as H _. rewrite <- H. exact (isfile_truthy _ _ Hf).
Qed.

(** X10: whatever [mzn2fzn] returns, a path it reports names a file in
    the world it leaves and is not empty, the two reported paths differ,
    and a path it does not report names no file. *)
Theorem mzn2fzn_reports_files (mzn_file : str) (dzn_files : list str)
    (data : option Data) (mzn_globals_dir : option str) (w w' : World)
    (fzn ozn : option str) :
  mzn2fzn_ mzn_file dzn_files data mzn_globals_dir w
  = (w', Return (fzn, ozn)) ->
  (forall f, fzn = Some f ->
     isfile f (files w') = true /\ truthy f = true /\ ozn <> Some f) /\
  (forall o, ozn = Some o -> isfile o (files w') = true /\ truthy o = true) /\
  (fzn = None ->
     isfile (join (lit ".") [splitext_root mzn_file; lit "fzn"]) (files w')
     = false) /\
  (ozn = None ->
     isfile (join (lit ".") [splitext_root mzn_file; lit "ozn"]) (files w')
     = false).
Proof.
  destruct dzn_files as [|d dzn_files]; [|discriminate].
  destruct (run_tool
              (cmd mzn2fzn_cmd
                 (mzn2fzn_args dzn mzn_file data mzn_globals_dir))
              None (files w)) as [fs [err|out]] eqn:Htool.
  { rewrite (mzn2fzn_tool_failed _ _ _ _ _ _ _ _ _ Htool). discriminate. }
  rewrite (mzn2fzn_tool_ok _ _ _ _ _ _ _ _ _ Htool).
  set (f := join (lit ".") [splitext_root mzn_file; lit "fzn"]).
  set (o := join (lit ".") [splitext_root mzn_file; lit "ozn"]).
  assert (Hne : o <> f).
  { unfold o, f. cbn [join]. intros H. apply app_inv_head in H.
    discriminate H. }
  clearbody f o.
  intros [= <- <- <-]. cbn [files].
  destruct (isfile f fs) eqn:Hf, (isfile o fs) eqn:Ho;
    (split; [|split; [|split]]); intros; simplify_eq;
    repeat split; eauto using isfile_truthy; congruence.
Qed.

(** X11: when the reconstruction tool exits non-zero, [solns2out] raises
    the [RuntimeError] of its standard error and scans nothing: the tool
    was run once, on the solver's text, and the logger got the call
    record and the exception record only. *)
Theorem solns2out_tool_failure (solns_input : str) (ozn_file : option str)
    (w : World) (fs : gset str) (err : str) :
  let c := cmd solns2out_cmd [arg_of ozn_file] in
  run_tool c (Some solns_input) (files w) = (fs, inl err) ->
  solns2out_ solns_input ozn_file w =
  (mk_world fs (calls w ++ [CallRun c (Some solns_input)])
     (log w ++ [LogCalling solns2out_cmd [arg_of ozn_file];
                LogException err]),
   Raise (new_RuntimeError err)).
Proof.
  intros c Htool. rewrite solns2out_run. fold c. rewrite Htool. reflexivity.
Qed.

(** X12: when the model adapter raises, [minizinc] raises the same
    exception and stops there: the adapter runs before the [try], so no
    cleanup runs, nothing is removed or logged, and no tool is invoked;
    the world is the one the adapter left. *)
Theorem minizinc_adapter_failure (dzn_files : list str)
    (data : option Data) (keep raw_output : bool)
    (mzn_globals_dir : option str) (w : World) (fs : gset str) (e : exn) :
  model_adapter raw_output (files w) = (fs, Raise e) ->
  minizinc_ dzn_files data keep raw_output mzn_globals_dir w
  = (mk_world fs (calls w ++ [CallModel raw_output]) (log w), Raise e).
Proof.
  intros Hadapter. unfold minizinc. unfold_monad. unfold compile_model.
  cbn [files calls log]. rewrite Hadapter. reflexivity.
Qed.

(** X13: with [keep = True] nothing is removed and no deletion is
    logged: [minizinc] leaves the world exactly as its stages, run one
    after the other with no cleanup, leave it. *)
Theorem minizinc_keep_removes_nothing (dzn_files : list str)
    (data : option Data) (raw_output : bool) (mzn_globals_dir : option str)
    (w : World) :
  minizinc_ dzn_files data true raw_output mzn_globals_dir w =
  (mzn_file ← compile_model model_adapter raw_output;
   files_ ← mzn2fzn_ mzn_file dzn_files data mzn_globals_dir;
   solve_and_read_ (fst files_) (snd files_) raw_output) w.
Proof.
  unfold minizinc, run_pipeline, cleanup_outputs, cleanup_model.
  simpl negb. unfold_monad.
  destruct (compile_model model_adapter raw_output w) as [w0 [mzn_file|e]];
    [|reflexivity].
  destruct (mzn2fzn_ mzn_file dzn_files data mzn_globals_dir w0)
    as [w1 [[fzn ozn]|e]]; [|reflexivity].
  cbn [fst snd].
  destruct (solve_and_read_ fzn ozn raw_output w1) as [w2 r].
  reflexivity.
Qed.

(** X14: with [keep = False], when [mzn2fzn] has reported both files
    and the three files are still on disk when the solving stages end,
    [minizinc] removes exactly these three, the flattened-constraints
    file first, then the output-spec file, then the model file, logs the
    three deletions in that order, and changes nothing else. *)
Theorem minizinc_removes_three_files (dzn_files : list str)
    (data : option Data) (raw_output : bool) (mzn_globals_dir : option str)
    (w w0 w1 w2 : World) (mzn_file f o : str)
    (r : Res (list (Solution (Assignment := Assignment)))) :
  compile_model model_adapter raw_output w = (w0, Return mzn_file) ->
  mzn2fzn_ mzn_file dzn_files data mzn_globals_dir w0
  = (w1, Return (Some f, Some o)) ->
  solve_and_read_ (Some f) (Some o) raw_output w1 = (w2, r) ->
  isfile f (files w2) = true ->
  isfile o (files w2) = true ->
  isfile mzn_file (files w2) = true ->
  f <> o -> mzn_file <> f -> mzn_file <> o ->
  minizinc_ dzn_files data false raw_output mzn_globals_dir w =
  (mk_world (files w2 ∖ {[ f ]} ∖ {[ o ]} ∖ {[ mzn_file ]}) (calls w2)
     (log w2 ++ [LogDeleting f; LogDeleting o; LogDeleting mzn_file]),
   r).
Proof.
  intros Hcompile Hflat Hsolve Hf Ho Hm Hfo Hmf Hmo.
  unfold minizinc, run_pipeline, cleanup_outputs, cleanup_model.
  simpl negb. unfold_monad.
  rewrite Hcompile, Hflat. cbn [fst snd]. rewrite Hsolve.
  rewrite remove_if_set_eq, Hf. rewrite remove_if_set_eq. cbn [files calls log].
  rewrite (isfile_diff_ne o f) by congruence. rewrite Ho.
  rewrite remove_if_set_eq. cbn [files calls log].
  rewrite !isfile_diff_ne by congruence. rewrite Hm.
  rewrite <- !app_assoc. reflexivity.
Qed.

(** X15: with [keep = False], when the flattened-constraints file that
    [mzn2fzn] reported is gone by the time the solving stages end, the
    inner cleanup stops at it: the output-spec file is not removed, and
    only the model file is deleted. *)
Theorem minizinc_skips_ozn_when_fzn_gone (dzn_files : list str)
    (data : option Data) (raw_output : bool) (mzn_globals_dir : option str)
    (w w0 w1 w2 : World) (mzn_file f o : str)
    (r : Res (list (Solution (Assignment := Assignment)))) :
  compile_model model_adapter raw_output w = (w0, Return mzn_file) ->
  mzn2fzn_ mzn_file dzn_files data mzn_globals_dir w0
  = (w1, Return (Some f, Some o)) ->
  solve_and_read_ (Some f) (Some o) raw_output w1 = (w2, r) ->
  isfile f (files w2) = false ->
  isfile o (files w2) = true ->
  isfile mzn_file (files w2) = true ->
  mzn_file <> o ->
  let w' :=
    world_after
      (minizinc_ dzn_files data false raw_output mzn_globals_dir) w in
  isfile o (files w') = true /\
  files w' = files w2 ∖ {[ mzn_file ]} /\
  log w' = log w2 ++ [LogDeleting mzn_file].
Proof.
  intros Hcompile Hflat Hsolve Hf Ho Hm Hmo.
  pose proof (mzn2fzn_reported_truthy _ _ _ _ _ _ _ _ Hflat) as Htruthy.
  unfold world_after, minizinc, run_pipeline, cleanup_outputs, cleanup_model.
  simpl negb. unfold_monad.
  rewrite Hcompile, Hflat. cbn [fst snd]. rewrite Hsolve.
  rewrite remove_if_set_eq, Hf, Htruthy, isinstance_FileNotFoundError.
  rewrite remove_if_set_eq, Hm. cbn [fst files calls log].
  rewrite (isfile_diff_ne o mzn_file) by congruence. auto.
Qed.

(** X16: the invocations of a run of [minizinc], in order: the model
    adapter; then, if it returned and no dzn file was given, the
    flattening tool; then, if that exited with status zero, the solver
    function on the path [mzn2fzn] reported; then, if that returned, the
    reconstruction tool on the solver's text.  A stage is invoked only
    when the one before it returned, each at most once, and neither the
    scan, nor the shaping of the result, nor the cleanup invokes
    anything. *)
Theorem minizinc_invocations (dzn_files : list str) (data : option Data)
    (keep raw_output : bool) (mzn_globals_dir : option str) (w : World) :
  calls
    (world_after
       (minizinc_ dzn_files data keep raw_output mzn_globals_dir) w) =
  calls w ++
    CallModel raw_output ::
    match model_adapter raw_output (files w), dzn_files with
    | (fs0, Return mzn_file), [] =>
        let flatten :=
          cmd mzn2fzn_cmd (mzn2fzn_args dzn mzn_file data mzn_globals_dir) in
        CallRun flatten None ::
        match run_tool flatten None fs0 with
        | (fs1, inr _) =>
            let fzn_file :=
              join (lit ".") [splitext_root mzn_file; lit "fzn"] in
            let ozn_file :=
              join (lit ".") [splitext_root mzn_file; lit "ozn"] in
            let fzn := if isfile fzn_file fs1 then Some fzn_file else None in
            let ozn := if isfile ozn_file fs1 then Some ozn_file else None in
            CallSolver fzn ::
            match fzn_fn fzn fs1 with
            | (_, Return solns) =>
                [CallRun (cmd solns2out_cmd [arg_of ozn]) (Some solns)]
            | (_, Raise _) => []
            end
        | (_, inl _) => []
        end
    | (_, Return _), _ :: _ => []
    | (_, Raise _), _ => []
    end.
Proof.
  unfold world_after, minizinc, run_pipeline. unfold_monad.
  unfold compile_model. cbn [files calls log].
  destruct (model_adapter raw_output (files w)) as [fs0 [mzn_file|e]];
    [|reflexivity].
  set (w0 := mk_world fs0 (calls w ++ [CallModel raw_output]) (log w)).
  destruct dzn_files as [|d dzn_files].
  - destruct (run_tool
                (cmd mzn2fzn_cmd
                   (mzn2fzn_args dzn mzn_file data mzn_globals_dir))
                None fs0) as [fs1 [err|out]] eqn:Htool.
    + rewrite (mzn2fzn_tool_failed mzn2fzn_cmd run_tool dzn mzn_file data
                 mzn_globals_dir w0 fs1 err Htool).
      match goal with
      | |- context [cleanup_model keep mzn_file ?w1] =>
          destruct (cleanup_model_spec keep mzn_file w1)
            as (w4 & -> & Hc4 & _)
      end.
      cbn [fst calls] in *. rewrite Hc4. subst w0. cbn [calls].
      rewrite <- app_assoc. reflexivity.
    + rewrite (mzn2fzn_tool_ok mzn2fzn_cmd run_tool dzn mzn_file data
                 mzn_globals_dir w0 fs1 out Htool).
      cbn [fst snd]. cbv zeta.
      match goal with
      | |- context [solve_and_read_ ?fzn ?ozn raw_output ?w1] =>
          pose proof (solve_and_read_calls solns2out_cmd run_tool fzn_fn
                        parse_dzn fzn ozn raw_output w1) as Hcalls;
          unfold world_after in Hcalls;
          destruct (solve_and_read_ fzn ozn raw_output w1) as [w2 r];
          destruct (cleanup_outputs_spec keep fzn ozn w2)
            as (w3 & -> & Hc3 & _)
      end.
      destruct (cleanup_model_spec keep mzn_file w3) as (w4 & -> & Hc4 & _).
      cbn [fst files calls] in *. rewrite Hc4, Hc3, Hcalls.
      subst w0. cbn [files calls]. rewrite <- !app_assoc. cbn [app].
      destruct (fzn_fn _ fs1) as [fs2 [solns|e]]; reflexivity.
  - unfold mzn2fzn. unfold_monad.
    destruct (cleanup_model_spec keep mzn_file w0) as (w4 & -> & Hc4 & _).
    cbn [fst calls] in *. rewrite Hc4. subst w0. reflexivity.
Qed.

Lemma parse_all_any_world (out : list str) (w w' : World) :
  snd (parse_all parse_dzn out w) = snd (parse_all parse_dzn out w').
Proof.
  induction out as [|s out IH]; [reflexivity|].
  simpl. destruct (parse_dzn s); [|reflexivity].
  unfold_monad.
  pose proof (parse_all_world parse_dzn out w) as Hw.
  pose proof (parse_all_world parse_dzn out w') as Hw'.
  destruct (parse_all parse_dzn out w) as [w1 [r|e]],
           (parse_all parse_dzn out w') as [w1' [r'|e']];
    cbn [fst snd] in *; congruence.
Qed.

(** X17: in a run where the flattening tool, the solver function and
    the reconstruction tool all succeed, [minizinc] returns what the
    scan of the reconstruction tool's output gives: with [raw_output]
    the blocks themselves, one solution each and in order; otherwise
    what [parse_dzn] makes of the blocks; and the scan's exception if it
    raises.  This holds for both values of [keep]. *)
Theorem minizinc_result (data : option Data) (keep raw_output : bool)
    (mzn_globals_dir : option str) (w : World) (fs0 fs1 fs2 fs3 : gset str)
    (mzn_file out1 solns out : str) :
  let fzn_file := join (lit ".") [splitext_root mzn_file; lit "fzn"] in
  let ozn_file := join (lit ".") [splitext_root mzn_file; lit "ozn"] in
  let fzn := if isfile fzn_file fs1 then Some fzn_file else None in
  let ozn := if isfile ozn_file fs1 then Some ozn_file else None in
  model_adapter raw_output (files w) = (fs0, Return mzn_file) ->
  run_tool (cmd mzn2fzn_cmd (mzn2fzn_args dzn mzn_file data mzn_globals_dir))
    None fs0 = (fs1, inr out1) ->
  fzn_fn fzn fs1 = (fs2, Return solns) ->
  run_tool (cmd solns2out_cmd [arg_of ozn]) (Some solns) fs2
  = (fs3, inr out) ->
  result_of (minizinc_ [] data keep raw_output mzn_globals_dir) w =
  match result_of (solns2out_scan out) w with
  | Return blocks =>
      if raw_output then Return (List.map RawSolution blocks)
      else result_of (parse_all parse_dzn blocks) w
  | Raise e => Raise e
  end.
Proof.
  intros fzn_file ozn_file fzn ozn Hadapter Hflat Hsolver Htool.
  rewrite (solns2out_scan_result out w).
  unfold result_of, minizinc, run_pipeline. unfold_monad.
  unfold compile_model. cbn [files calls log]. rewrite Hadapter.
  rewrite (mzn2fzn_tool_ok mzn2fzn_cmd run_tool dzn mzn_file data
             mzn_globals_dir
             (mk_world fs0 (calls w ++ [CallModel raw_output]) (log w))
             fs1 out1 Hflat).
  cbn [fst snd]. fold fzn_file ozn_file. fold fzn ozn.
  unfold solve_and_read. unfold_monad. unfold call_fzn_fn.
  cbn [files calls log]. rewrite Hsolver.
  rewrite solns2out_run. cbn [files calls log]. rewrite Htool.
  destruct (scan_result (split NL out) [] []) as [blocks|e].
  - destruct raw_output.
    + match goal with
      | |- context [cleanup_outputs keep fzn ozn ?w2] =>
          destruct (cleanup_outputs_spec keep fzn ozn w2) as (w3 & -> & _)
      end.
      destruct (cleanup_model_spec keep mzn_file w3) as (w4 & -> & _).
      reflexivity.
    + match goal with
      | |- context [parse_all parse_dzn blocks ?w2] =>
          rewrite (parse_all_any_world blocks w w2);
          destruct (parse_all parse_dzn blocks w2) as [w2' r]
      end.
      destruct (cleanup_outputs_spec keep fzn ozn w2') as (w3 & -> & _).
      destruct (cleanup_model_spec keep mzn_file w3) as (w4 & -> & _).
      reflexivity.
  - match goal with
    | |- context [cleanup_outputs keep fzn ozn ?w2] =>
        destruct (cleanup_outputs_spec keep fzn ozn w2) as (w3 & -> & _)
    end.
    destruct (cleanup_model_spec keep mzn_file w3) as (w4 & -> & _).
    reflexivity.
Qed.

(** X18: [list(map(parse_dzn, out))] gives the values of the blocks in
    order when every block parses, and otherwise raises the exception of
    the first block that does not parse, whatever the later blocks are;
    it leaves the world as it is. *)
Theorem parse_all_stops_at_first_failure :
  (forall (out : list str) (vs : list Assignment) (w : World),
      Forall2 (fun s v => parse_dzn s = Return v) out vs ->
      parse_all parse_dzn out w = (w, Return (List.map ParsedSolution vs))) /\
  (forall (pre : list str) (s : str) (post : list str) (e : exn)
          (w : World),
      Forall (fun s' => exists v, parse_dzn s' = Return v) pre ->
      parse_dzn s = Raise e ->
      parse_all parse_dzn (pre ++ s :: post) w = (w, Raise e)).
Proof.
  split.
  - intros out vs w H. induction H as [|s v out vs Hs _ IH]; [reflexivity|].
    simpl. rewrite Hs. unfold_monad. rewrite IH. reflexivity.
  - intros pre s post e w Hpre Hs.
    induction Hpre as [|s' pre [v Hv] _ IH]; simpl.
    + rewrite Hs. reflexivity.
    + rewrite Hv. unfold_monad. rewrite IH. reflexivity.
Qed.

End PipelineMore.

(** ** The further scenarios *)

Lemma mzn2fzn_looks_beside_model_witness :
  result_of
    (mzn2fzn Scenario.mzn2fzn_cmd Cases.flattener Scenario.dzn Cases.queens
       [] None Scenario.gecode)
    Scenario.clean_world
  = Return
      (if isfile (lit "models/" ++ lit "queens" ++ lit ".fzn")
            ({[ lit "models/queens.fzn" ]} ∪ ∅)
       then Some (lit "models/" ++ lit "queens" ++ lit ".fzn") else None,
       if isfile (lit "models/" ++ lit "queens" ++ lit ".ozn")
            ({[ lit "models/queens.fzn" ]} ∪ ∅)
       then Some (lit "models/" ++ lit "queens" ++ lit ".ozn") else None).
Proof.
  apply (mzn2fzn_looks_beside_model Scenario.mzn2fzn_cmd Cases.flattener
           Scenario.dzn (lit "models/") (lit "queens") (lit "mzn")
           None Scenario.gecode Scenario.clean_world
           ({[ lit "models/queens.fzn" ]} ∪ ∅) []).
  - right. exists (lit "models"). reflexivity.
  - apply (bool_decide_unpack _). vm_compute. exact I.
  - exists 113%N. split; [|discriminate].
    apply (bool_decide_unpack _). vm_compute. exact I.
  - apply (bool_decide_unpack _). vm_compute. exact I.
  - apply (bool_decide_unpack _). vm_compute. exact I.
  - reflexivity.
Defined.

Lemma mzn2fzn_appends_to_bare_name_witness :
  result_of
    (mzn2fzn Scenario.mzn2fzn_cmd Scenario.working_tools Scenario.dzn
       (lit ".m") [] None Scenario.gecode)
    (mk_world {[ lit ".m" ]} [] [])
  = Return
      (if isfile (lit ".m" ++ lit ".fzn")
            ({[ lit "m.fzn"; lit "m.ozn" ]} ∪ {[ lit ".m" ]})
       then Some (lit ".m" ++ lit ".fzn") else None,
       if isfile (lit ".m" ++ lit ".ozn")
            ({[ lit "m.fzn"; lit "m.ozn" ]} ∪ {[ lit ".m" ]})
       then Some (lit ".m" ++ lit ".ozn") else None).
Proof.
  apply (mzn2fzn_appends_to_bare_name Scenario.mzn2fzn_cmd
           Scenario.working_tools Scenario.dzn [] (lit ".") (lit "m")
           None Scenario.gecode (mk_world {[ lit ".m" ]} [] [])
           ({[ lit "m.fzn"; lit "m.ozn" ]} ∪ {[ lit ".m" ]}) []).
  - left. reflexivity.
  - reflexivity.
  - apply (bool_decide_unpack _). vm_compute. exact I.
  - apply (bool_decide_unpack _). vm_compute. exact I.
  - reflexivity.
Defined.

Lemma mzn2fzn_rejects_dzn_files_witness :
  world_after
    (mzn2fzn Scenario.mzn2fzn_cmd Scenario.working_tools Scenario.dzn
       (lit "m.mzn") [lit "d.dzn"] None Scenario.gecode)
    Scenario.clean_world
  = Scenario.clean_world /\
  exists e,
    result_of
      (mzn2fzn Scenario.mzn2fzn_cmd Scenario.working_tools Scenario.dzn
         (lit "m.mzn") [lit "d.dzn"] None Scenario.gecode)
      Scenario.clean_world = Raise e /\
    exn_class e = TypeError /\
    isinstance e RuntimeError = false.
Proof.
  apply (mzn2fzn_rejects_dzn_files Scenario.mzn2fzn_cmd
           Scenario.working_tools Scenario.dzn (lit "m.mzn") [lit "d.dzn"]
           None Scenario.gecode Scenario.clean_world).
  discriminate.
Defined.

Lemma mzn2fzn_reports_files_witness :
  isfile (lit "m.fzn")
    (files
       (world_after
          (mzn2fzn Scenario.mzn2fzn_cmd Scenario.working_tools Scenario.dzn
             (lit "m.mzn") [] None Scenario.gecode)
          (Scenario.compiled Scenario.clean_world))) = true /\
  truthy (lit "m.fzn") = true /\
  Some (lit "m.ozn") <> Some (lit "m.fzn").
Proof.
  apply (proj1 (mzn2fzn_reports_files Scenario.mzn2fzn_cmd
                  Scenario.working_tools Scenario.dzn (lit "m.mzn") []
                  None Scenario.gecode
                  (Scenario.compiled Scenario.clean_world)
                  (world_after
                     (mzn2fzn Scenario.mzn2fzn_cmd Scenario.working_tools
                        Scenario.dzn (lit "m.mzn") [] None Scenario.gecode)
                     (Scenario.compiled Scenario.clean_world))
                  (Some (lit "m.fzn")) (Some (lit "m.ozn"))
                  ltac:(vm_compute; reflexivity))
           (lit "m.fzn") eq_refl).
Defined.

Lemma solns2out_tool_failure_witness :
  result_of
    (solns2out Scenario.solns2out_cmd Scenario.failing_tools
       (lit "x = 1;") (Some (lit "m.ozn")))
    Scenario.clean_world
  = Raise (new_RuntimeError (lit "m.mzn:1: syntax error")).
Proof.
  unfold result_of.
  rewrite (solns2out_tool_failure Scenario.solns2out_cmd
             Scenario.failing_tools (lit "x = 1;") (Some (lit "m.ozn"))
             Scenario.clean_world ∅ (lit "m.mzn:1: syntax error") eq_refl).
  reflexivity.
Defined.

Lemma minizinc_removes_three_files_witness :
  Scenario.good_run Scenario.clean_world
  = (mk_world
       (files Cases.before_cleanup ∖ {[ lit "m.fzn" ]} ∖ {[ lit "m.ozn" ]}
          ∖ {[ lit "m.mzn" ]})
       (calls Cases.before_cleanup)
       (log Cases.before_cleanup
          ++ [LogDeleting (lit "m.fzn"); LogDeleting (lit "m.ozn");
              LogDeleting (lit "m.mzn")]),
     Return [RawSolution (lit "x = 1;")]).
Proof.
  apply (minizinc_removes_three_files
           Scenario.mzn2fzn_cmd Scenario.solns2out_cmd Scenario.working_tools
           Scenario.solver Scenario.adapter Scenario.dzn Scenario.parse_dzn
           [] None true Scenario.gecode Scenario.clean_world
           (Scenario.compiled Scenario.clean_world)
           (world_after
              (mzn2fzn Scenario.mzn2fzn_cmd Scenario.working_tools
                 Scenario.dzn (lit "m.mzn") [] None Scenario.gecode)
              (Scenario.compiled Scenario.clean_world))
           Cases.before_cleanup (lit "m.mzn") (lit "m.fzn") (lit "m.ozn"));
    try discriminate; vm_compute; reflexivity.
Defined.

Lemma minizinc_skips_ozn_when_fzn_gone_witness :
  isfile (lit "m.ozn")
    (files (world_after Scenario.consuming_run Scenario.clean_world)) = true /\
  files (world_after Scenario.consuming_run Scenario.clean_world)
  = files Cases.before_cleanup_consumed ∖ {[ lit "m.mzn" ]} /\
  log (world_after Scenario.consuming_run Scenario.clean_world)
  = log Cases.before_cleanup_consumed ++ [LogDeleting (lit "m.mzn")].
Proof.
  apply (minizinc_skips_ozn_when_fzn_gone
           Scenario.mzn2fzn_cmd Scenario.solns2out_cmd Scenario.working_tools
           Scenario.consuming_solver Scenario.adapter Scenario.dzn
           Scenario.parse_dzn
           [] None true Scenario.gecode Scenario.clean_world
           (Scenario.compiled Scenario.clean_world)
           (world_after
              (mzn2fzn Scenario.mzn2fzn_cmd Scenario.working_tools
                 Scenario.dzn (lit "m.mzn") [] None Scenario.gecode)
              (Scenario.compiled Scenario.clean_world))
           Cases.before_cleanup_consumed
           (lit "m.mzn") (lit "m.fzn") (lit "m.ozn")
           (Return [RawSolution (lit "x = 1;")]));
    try discriminate; vm_compute; reflexivity.
Defined.

Lemma minizinc_result_witness :
  result_of Scenario.good_run Scenario.clean_world =
  match
    result_of
      (solns2out_scan
         (Scenario.text ["x = 1;"; "----------"; "=========="]%string))
      Scenario.clean_world
  with
  | Return blocks => Return (List.map RawSolution blocks)
  | Raise e => Raise e
  end.
Proof.
  apply (minizinc_result
           Scenario.mzn2fzn_cmd Scenario.solns2out_cmd Scenario.working_tools
           Scenario.solver Scenario.adapter Scenario.dzn Scenario.parse_dzn
           None false true Scenario.gecode Scenario.clean_world
           ({[ lit "m.mzn" ]} ∪ ∅)
           ({[ lit "m.fzn"; lit "m.ozn" ]} ∪ ({[ lit "m.mzn" ]} ∪ ∅))
           ({[ lit "m.fzn"; lit "m.ozn" ]} ∪ ({[ lit "m.mzn" ]} ∪ ∅))
           ({[ lit "m.fzn"; lit "m.ozn" ]} ∪ ({[ lit "m.mzn" ]} ∪ ∅))
           (lit "m.mzn") []
           (Scenario.text ["x = 1;"; "----------"; "=========="]%string)
           (Scenario.text ["x = 1;"; "----------"; "=========="]%string));
    vm_compute; reflexivity.
Defined.

Lemma parse_all_stops_at_first_failure_witness :
  parse_all Cases.picky_parse_dzn [lit "a"; lit "b"] Scenario.clean_world
  = (Scenario.clean_world,
     Return (List.map ParsedSolution [lit "a"; lit "b"])) /\
  parse_all Cases.picky_parse_dzn ([lit "a"] ++ [] :: [lit "b"; []])
    Scenario.clean_world
  = (Scenario.clean_world,
     Raise (mk_exn (UserException 1) [lit "empty solution"] None)).
Proof.
  split.
  - apply (proj1 (parse_all_stops_at_first_failure Cases.picky_parse_dzn)).
    repeat constructor.
  - apply (proj2 (parse_all_stops_at_first_failure Cases.picky_parse_dzn)).
    + constructor; [exists (lit "a"); reflexivity | constructor].
    + reflexivity.
Defined.

Lemma minizinc_adapter_failure_witness :
  minizinc Scenario.mzn2fzn_cmd Scenario.solns2out_cmd Scenario.working_tools
    Scenario.solver Cases.broken_adapter Scenario.dzn Scenario.parse_dzn
    [] None false true Scenario.gecode Scenario.stale_world
  = (mk_world {[ lit "m.fzn" ]} ([] ++ [CallModel true]) [],
     Raise (mk_exn (UserException 2) [lit "no such model"] None)).
Proof.
  apply (minizinc_adapter_failure
           Scenario.mzn2fzn_cmd Scenario.solns2out_cmd Scenario.working_tools
           Scenario.solver Cases.broken_adapter Scenario.dzn
           Scenario.parse_dzn
           [] None false true Scenario.gecode Scenario.stale_world
           {[ lit "m.fzn" ]}
           (mk_exn (UserException 2) [lit "no such model"] None)).
  reflexivity.
Defined.
